(** * A shallow embedding of [rag.py]: the retrieval-gated answer pipeline

    The script answers questions about restaurant menus: it flattens
    the catalog into text chunks, looks the query up in a vector index,
    refuses when the nearest chunk is too far, and otherwise prompts a
    text generator with the chunks and a bounded conversation history.

    Conventions of the embedding.
    - A Python [str] is the list of its code points ([N]).
    - A raised exception is a value: a computation yields an [outcome],
      and stateful code threads its store explicitly, so the store left
      behind by a raising call can be inspected.
    - The embedding model, the generator, the vector index and Unicode's
      NFKD table are outside the script; they are section variables.
    - Distances are finite floats, read as the rationals they denote. *)

From Stdlib Require Import String Ascii.
From Stdlib Require Import List ZArith NArith QArith Bool Lia.
Import ListNotations.
Local Open Scope string_scope.
Local Open Scope list_scope.
Local Open Scope nat_scope.
Set Warnings "-register-all".

(** ** Python strings *)

Module PyStr.

Definition str := list N.

(** An ASCII literal of the source, as code points. *)
Definition lit (s : string) : str := map N_of_ascii (list_ascii_of_string s).

Definition SP : N := 32%N.
Definition NL : N := 10%N.

Fixpoint str_eqb (a b : str) : bool :=
  match a, b with
  | [], [] => true
  | x :: a', y :: b' => N.eqb x y && str_eqb a' b'
  | _, _ => false
  end.

(** [str.isspace] on one code point, which is also what [\s] matches in a
    [str] pattern: the code points CPython lists as whitespace. *)
Definition isspace (c : N) : bool :=
  ((0x09 <=? c) && (c <=? 0x0D) || (0x1C <=? c) && (c <=? 0x20)
   || (c =? 0x85) || (c =? 0xA0) || (c =? 0x1680)
   || (0x2000 <=? c) && (c <=? 0x200A)
   || (c =? 0x2028) || (c =? 0x2029) || (c =? 0x202F)
   || (c =? 0x205F) || (c =? 0x3000))%N.

Definition is_ascii (c : N) : bool := (c <? 128)%N.

(** [\w] on an ASCII code point: letter, digit or underscore. *)
Definition is_word (c : N) : bool :=
  ((48 <=? c) && (c <=? 57) || (65 <=? c) && (c <=? 90)
   || (c =? 95) || (97 <=? c) && (c <=? 122))%N.

(** [str.lower] on an ASCII code point. *)
Definition lower (c : N) : N :=
  if ((65 <=? c) && (c <=? 90))%N then (c + 32)%N else c.

(** [sep.join(l)] *)
Fixpoint join (sep : str) (l : list str) : str :=
  match l with
  | [] => []
  | x :: rest =>
      match rest with
      | [] => x
      | _ :: _ => x ++ sep ++ join sep rest
      end
  end.

(** [text.split()]: the maximal runs of non-whitespace, in order.  A
    non-space character starts a new token when the next character is a
    space or the text ends, and otherwise joins the token that follows. *)
Fixpoint split (s : str) : list str :=
  match s with
  | [] => []
  | c :: s' =>
      if isspace c then split s'
      else match s' with
           | [] => [[c]]
           | d :: _ =>
               if isspace d then [c] :: split s'
               else match split s' with
                    | t :: ts => (c :: t) :: ts
                    | [] => [[c]]
                    end
           end
  end.

Fixpoint lstrip (s : str) : str :=
  match s with
  | [] => []
  | c :: s' => if isspace c then lstrip s' else s
  end.

Fixpoint rstrip (s : str) : str :=
  match s with
  | [] => []
  | c :: s' =>
      match rstrip s' with
      | [] => if isspace c then [] else [c]
      | r => c :: r
      end
  end.

(** [text.strip()] *)
Definition strip (s : str) : str := rstrip (lstrip s).

(** [re.sub(r"\s+", " ", text)]: every maximal run of whitespace becomes
    one space, emitted at the last character of the run. *)
Fixpoint collapse_ws (s : str) : str :=
  match s with
  | [] => []
  | c :: s' =>
      if isspace c then
        match s' with
        | [] => [SP]
        | d :: _ => if isspace d then collapse_ws s' else SP :: collapse_ws s'
        end
      else c :: collapse_ws s'
  end.

(** [PUNCT_RE.sub(" ", text)] with [PUNCT_RE = [^\w\s]], on ASCII text. *)
Definition punct_sub (s : str) : str :=
  map (fun c => if is_word c || isspace c then c else SP) s.

End PyStr.
Import PyStr.

(** ** Exceptions and outcomes *)

Inductive exn : Type :=
| KeyError (key : str)
| IndexError
| TypeError
| External (cls : string).

(** The class name Python reports for an exception. *)
Definition exn_class (e : exn) : string :=
  match e with
  | KeyError _ => "KeyError"
  | IndexError => "IndexError"
  | TypeError => "TypeError"
  | External cls => cls
  end.

Inductive outcome (A : Type) : Type :=
| Returns (a : A)
| Raises (e : exn).
Arguments Returns {A} a.
Arguments Raises {A} e.

Definition obind {A B} (m : outcome A) (k : A -> outcome B) : outcome B :=
  match m with
  | Returns a => k a
  | Raises e => Raises e
  end.

(** Code that mutates an object of type [S]: the store comes back also
    when the call raises. *)
Definition Run (S A : Type) : Type := S -> outcome A * S.

Definition ret {S A} (a : A) : Run S A := fun s => (Returns a, s).

Definition bind {S A B} (m : Run S A) (k : A -> Run S B) : Run S B :=
  fun s =>
    match m s with
    | (Returns a, s') => k a s'
    | (Raises e, s') => (Raises e, s')
    end.

(** A call that can raise but does not touch the store. *)
Definition lift {S A} (m : outcome A) : Run S A := fun s => (m, s).

(** Reading the store through [f]. *)
Definition gets {S A} (f : S -> A) : Run S A := fun s => (Returns (f s), s).
Definition modify {S} (f : S -> S) : Run S unit := fun s => (Returns tt, f s).

Declare Scope py_scope.
Delimit Scope py_scope with py.
Notation "x <- m ;; k" := (bind m (fun x => k))
  (at level 61, m at next level, right associativity) : py_scope.
Notation "m ;;; k" := (bind m (fun _ => k))
  (at level 61, right associativity) : py_scope.
Notation "x <~ m ;; k" := (obind m (fun x => k))
  (at level 61, m at next level, right associativity) : py_scope.

Fixpoint for_each {S A} (body : A -> Run S unit) (l : list A) : Run S unit :=
  match l with
  | [] => ret tt
  | x :: l' => bind (body x) (fun _ => for_each body l')
  end.

(** [l[i]] on a Python list: a negative index counts from the end. *)
Definition py_index {A} (l : list A) (i : Z) : outcome A :=
  let n := Z.of_nat (length l) in
  let j := (if i <? 0 then i + n else i)%Z in
  if ((j <? 0) || (n <=? j))%Z then Raises IndexError
  else match nth_error l (Z.to_nat j) with
       | Some x => Returns x
       | None => Raises IndexError
       end.

(** ** Values decoded from the JSON knowledge base *)

(** A [dict] keeps its keys in insertion order, which iteration over it
    observes; it is the list of its items. *)
Inductive pyval : Type :=
| PNone
| PBool (b : bool)
| PInt (z : Z)
| PFloat (q : Q)
| PStr (s : str)
| PList (l : list pyval)
| PDict (d : list (str * pyval)).

Fixpoint lookup (key : str) (d : list (str * pyval)) : option pyval :=
  match d with
  | [] => None
  | (k, v) :: d' => if str_eqb key k then Some v else lookup key d'
  end.

(** [v[key]] for a string key. *)
Definition getitem (v : pyval) (key : str) : outcome pyval :=
  match v with
  | PDict d =>
      match lookup key d with
      | Some x => Returns x
      | None => Raises (KeyError key)
      end
  | _ => Raises TypeError
  end.

(** The items [for x in v] runs through. *)
Definition py_iter (v : pyval) : outcome (list pyval) :=
  match v with
  | PList l => Returns l
  | PStr s => Returns (map (fun c => PStr [c]) s)
  | PDict d => Returns (map (fun kv => PStr (fst kv)) d)
  | _ => Raises TypeError
  end.

Definition truthy (v : pyval) : bool :=
  match v with
  | PNone => false
  | PBool b => b
  | PInt z => negb (z =? 0)%Z
  | PFloat q => negb (Qeq_bool q 0)
  | PStr s => negb (Nat.eqb (length s) 0)
  | PList l => negb (Nat.eqb (length l) 0)
  | PDict d => negb (Nat.eqb (length d) 0)
  end.

(** [a or b] *)
Definition py_or (a b : pyval) : pyval := if truthy a then a else b.

Fixpoint as_strs (l : list pyval) : outcome (list str) :=
  match l with
  | [] => Returns []
  | PStr s :: l' => obind (as_strs l') (fun rest => Returns (s :: rest))
  | _ :: _ => Raises TypeError
  end.

(** [sep.join(v)]: every item of [v] has to be a [str]. *)
Definition str_join (sep : str) (v : pyval) : outcome str :=
  obind (py_iter v) (fun items =>
  obind (as_strs items) (fun strs => Returns (join sep strs))).

(** One entry of [meta]. *)
Record Meta : Type := {
  restaurant : pyval;
  category : pyval;
  item_name : pyval;
  url : pyval;
  price : pyval;
  features : pyval
}.

(** The two module-level lists Step 5 fills. *)
Record Chunks : Type := { texts : list str; meta : list Meta }.

(** One retrieved chunk: the dict [retrieve] builds. *)
Module Result.
Record t : Type := { text : str; meta : Meta; distance : Q }.
End Result.

(** ** Step 1: configuration *)

Definition TOP_K : Z := 3.
Definition DISTANCE_THRESHOLD : Q := 1.
Definition HISTORY_MAX : Z := 3.

(** ** Step 8: minimal history *)

Module Conversation.

Record t : Type := { max : Z; memory : list (str * str) }.

(** [Conversation(max_turns)] *)
Definition init (max_turns : Z) : t := {| max := max_turns; memory := [] |}.

(** [add]: append, then drop the oldest turn once if over capacity. *)
Definition add (self : t) (user assistant : str) : t :=
  let appended := memory self ++ [(user, assistant)] in
  if (Z.of_nat (length appended) >? max self)%Z
  then {| max := max self; memory := tl appended |}
  else {| max := max self; memory := appended |}.

Definition format_history (self : t) : str :=
  match memory self with
  | [] => []
  | _ :: _ =>
      let lines :=
        map (fun ua => lit "User: " ++ fst ua ++ [NL] ++ lit "Assistant: " ++ snd ua)
            (memory self) in
      join [NL] lines ++ [NL]
  end.

End Conversation.

(** ** Step 9: prompt *)

Definition SYSTEM : str :=
  lit "You answer questions about restaurant menus using ONLY the CONTEXT. "
  ++ lit "If the answer cannot be found, say you do not know.".

Definition make_prompt (query : str) (ctx_chunks : list str) (history : str) : str :=
  let ctx := join [NL] ctx_chunks in
  SYSTEM ++ [NL; NL]
  ++ history
  ++ lit "CONTEXT:" ++ [NL] ++ ctx ++ [NL; NL]
  ++ lit "Question: " ++ query ++ [NL] ++ lit "Answer:".

(** ** Step 10: decode helper *)

(** One turn of the loop: [out[-1]] is the last kept token. *)
Definition dedupe_step (out : list str) (tok : str) : list str :=
  if str_eqb tok (last out []) then out else out ++ [tok].

Definition dedupe_tokens (text : str) : str :=
  let toks := split text in
  let out := match toks with [] => [] | t0 :: _ => [t0] end in
  join [SP] (fold_left dedupe_step (tl toks) out).

(** ** The script over its external collaborators *)

Section Script.

(** [unicodedata.normalize("NFKD", _)] *)
Variable nfkd : str -> str.

(** [str(v)] for a value that is not a string: Python's own rendering. *)
Variable py_repr : pyval -> str.

(** The embedding model, the index and the generator with its tokenizer. *)
Variable Array : Type.
Variable encode : list str -> outcome Array.
Variable search : Array -> Z -> outcome (list (list Q) * list (list Z)).
Variables Inputs OutIds : Type.
Variable tokenizer : str -> outcome Inputs.
Variable generate : Inputs -> outcome OutIds.
Variable decode : OutIds -> outcome str.

(** *** Step 2: text cleaner *)

Definition clean (text : option str) : str :=
  match text with
  | None => []
  | Some [] => []
  | Some t =>
      let t := nfkd t in
      let t := filter is_ascii t in
      let t := map lower t in
      let t := punct_sub t in
      strip (collapse_ws t)
  end.

(** *** Step 5: flatten *)

(** What [f"{v}"] interpolates. *)
Definition py_str (v : pyval) : str :=
  match v with
  | PStr s => s
  | _ => py_repr v
  end.

(** The f-string [txt_raw]; its subscripts are evaluated left to right. *)
Definition txt_raw (rname rloc it : pyval) : outcome str :=
  obind (getitem it (lit "category")) (fun cat =>
  obind (getitem it (lit "item_name")) (fun name =>
  obind (getitem it (lit "description")) (fun descr =>
  obind (getitem it (lit "special_features")) (fun feats =>
  obind (str_join [SP] (py_or feats (PList []))) (fun tags =>
  Returns (py_str rname ++ [SP] ++ py_str rloc ++ [SP] ++ py_str cat ++ [SP]
           ++ py_str name ++ [SP] ++ py_str descr ++ [SP]
           ++ tags)))))).

(** The dict appended to [meta]. *)
Definition item_meta (rname it : pyval) : outcome Meta :=
  obind (getitem it (lit "category")) (fun cat =>
  obind (getitem it (lit "item_name")) (fun name =>
  obind (getitem it (lit "product_url")) (fun u =>
  obind (getitem it (lit "price")) (fun p =>
  obind (getitem it (lit "special_features")) (fun feats =>
  Returns {| restaurant := rname; category := cat; item_name := name;
             url := u; price := p; features := feats |}))))).

Definition append_text (x : str) (g : Chunks) : Chunks :=
  {| texts := texts g ++ [x]; meta := meta g |}.

Definition append_meta (m : Meta) (g : Chunks) : Chunks :=
  {| texts := texts g; meta := meta g ++ [m] |}.

(** The body of the inner loop. *)
Definition flatten_item (rname rloc it : pyval) : Run Chunks unit :=
  (raw <- lift (txt_raw rname rloc it) ;;
   modify (append_text (clean (Some raw))) ;;;
   m <- lift (item_meta rname it) ;;
   modify (append_meta m))%py.

(** The body of the outer loop. *)
Definition flatten_entity (r : pyval) : Run Chunks unit :=
  (rname <- lift (getitem r (lit "restaurant_name")) ;;
   rloc <- lift (getitem r (lit "location")) ;;
   items <- lift (getitem r (lit "items")) ;;
   its <- lift (py_iter items) ;;
   for_each (flatten_item rname rloc) its)%py.

(** Step 5 as a whole, from [texts, meta = [], []]. *)
Definition flatten (restaurants : list pyval) : outcome unit * Chunks :=
  for_each flatten_entity restaurants {| texts := []; meta := [] |}.

(** *** Step 7: top-k retrieval *)

(** The list comprehension over [enumerate(idx[0])], from position [rank]. *)
Fixpoint retrieve_rows (g : Chunks) (dist : list (list Q)) (rank : nat)
    (row : list Z) : outcome (list Result.t) :=
  match row with
  | [] => Returns []
  | i :: row' =>
      obind (py_index (texts g) i) (fun t =>
      obind (py_index (meta g) i) (fun m =>
      obind (py_index dist 0) (fun drow =>
      obind (py_index drow (Z.of_nat rank)) (fun d =>
      obind (retrieve_rows g dist (S rank) row') (fun rest =>
      Returns ({| Result.text := t; Result.meta := m; Result.distance := d |}
               :: rest))))))
  end.

Definition retrieve (g : Chunks) (query : str) (k : Z) : outcome (list Result.t) :=
  obind (encode [clean (Some query)]) (fun q_emb =>
  obind (search q_emb k) (fun found =>
  let '(dist, idx) := found in
  obind (py_index idx 0) (fun row =>
  retrieve_rows g dist 0 row))).

(** *** Step 11: the answer function *)

Definition REFUSAL : str :=
  lit "I do not know. The knowledge base does not contain "
  ++ lit "information relevant to this question.".

(** The out-of-scope check on the retrieved list. *)
Definition out_of_scope (retrieved : list Result.t) : bool :=
  match retrieved with
  | [] => true
  | r :: _ => negb (Qle_bool (Result.distance r) DISTANCE_THRESHOLD)
  end.

Definition answer (g : Chunks) (query : str) (top_k : Z)
  : Run Conversation.t (str * list Result.t) :=
  (retrieved <- lift (retrieve g query top_k) ;;
   if out_of_scope retrieved then
     modify (fun conv => Conversation.add conv query REFUSAL) ;;;
     ret (REFUSAL, [])
   else
     history <- gets Conversation.format_history ;;
     let prompt := make_prompt query (map Result.text retrieved) history in
     inputs <- lift (tokenizer prompt) ;;
     out_ids <- lift (generate inputs) ;;
     decoded <- lift (decode out_ids) ;;
     let response := dedupe_tokens decoded in
     modify (fun conv => Conversation.add conv query response) ;;;
     ret (response, retrieved))%py.

End Script.

(** ** Step 4: reading the knowledge base *)

Definition KB_PATH : str := lit "knowledge_base.json".

(** [load_kb]: [json_load] stands for [json.load(open(path))], which
    raises or yields the decoded file; a dict is replaced by the list
    of its values, anything else is passed on as it is. *)
Definition load_kb (json_load : str -> outcome pyval) (path : str)
  : outcome pyval :=
  obind (json_load path) (fun data =>
  Returns (match data with
           | PDict d => PList (map snd d)
           | _ => data
           end)).

(** Step 5 on what [load_kb] returned: the outer loop iterates over
    the value itself. *)
Definition flatten_loaded (nfkd : str -> str) (py_repr : pyval -> str)
    (restaurants : pyval) : outcome unit * Chunks :=
  match py_iter restaurants with
  | Returns entities => flatten nfkd py_repr entities
  | Raises e => (Raises e, {| texts := []; meta := [] |})
  end.

(** ** Notions the properties are stated with *)

(** What the generator makes of a prompt: the three calls [answer]
    makes one after the other (tokenizer, generator, decoding). *)
Definition generation (Inputs OutIds : Type)
    (tokenizer : str -> outcome Inputs) (generate : Inputs -> outcome OutIds)
    (decode : OutIds -> outcome str) (prompt : str) : outcome str :=
  obind (tokenizer prompt) (fun inputs =>
  obind (generate inputs) (fun out_ids => decode out_ids)).

(** A character the cleaner lets through unchanged: a lower-case ASCII
    letter, a digit or the underscore. *)
Definition plain (c : N) : Prop :=
  is_word c = true /\ is_ascii c = true /\ lower c = c.

(** The characters of cleaned text: plain ones and the space. *)
Definition cleaned_char (c : N) : Prop := c = SP \/ plain c.

(** Every whitespace character is a space and stands alone. *)
Fixpoint spaced (s : str) : Prop :=
  match s with
  | [] => True
  | c :: s' =>
      (isspace c = true ->
       c = SP /\ match s' with [] => True | d :: _ => isspace d = false end)
      /\ spaced s'
  end.

(** Cleaned text: words of plain characters, one space between two. *)
Definition normalized (s : str) : Prop :=
  Forall cleaned_char s /\ spaced s /\ lstrip s = s /\ rstrip s = s.

(** The collapse as the specification words it: a token is kept only if
    it differs from the immediately preceding kept token [prev]. *)
Fixpoint keep_if_differs (prev : option str) (toks : list str) : list str :=
  match toks with
  | [] => []
  | tok :: rest =>
      match prev with
      | Some p =>
          if str_eqb tok p then keep_if_differs prev rest
          else tok :: keep_if_differs (Some tok) rest
      | None => tok :: keep_if_differs (Some tok) rest
      end
  end.

(** A token: not empty, no whitespace inside. *)
Definition token (t : str) : Prop :=
  t <> [] /\ Forall (fun c => isspace c = false) t.

(** No two neighbouring tokens are equal. *)
Fixpoint no_adjacent_repeat (toks : list str) : bool :=
  match toks with
  | [] => true
  | a :: rest =>
      match rest with
      | [] => true
      | b :: _ => negb (str_eqb a b) && no_adjacent_repeat rest
      end
  end.

(** The calls [add(u, a)] for the turns [(u, a)] of a list, in order. *)
Definition add_all (c : Conversation.t) (turns : list (str * str)) : Conversation.t :=
  fold_left (fun c ua => Conversation.add c (fst ua) (snd ua)) turns c.

(** The most recent [n] elements, oldest first. *)
Definition most_recent {A} (n : nat) (l : list A) : list A :=
  skipn (length l - n) l.





(** *** Catalog shapes *)

Definition key_restaurant_name : str := lit "restaurant_name".
Definition key_location : str := lit "location".
Definition key_items : str := lit "items".
Definition key_category : str := lit "category".
Definition key_item_name : str := lit "item_name".
Definition key_description : str := lit "description".
Definition key_special_features : str := lit "special_features".
Definition key_product_url : str := lit "product_url".
Definition key_price : str := lit "price".

Definition has_key (key : str) (v : pyval) : bool :=
  match v with
  | PDict d => match lookup key d with Some _ => true | None => false end
  | _ => false
  end.

Definition is_dict (v : pyval) : bool :=
  match v with PDict _ => true | _ => false end.

Definition is_PStr (v : pyval) : bool :=
  match v with PStr _ => true | _ => false end.

(** A feature list as the corpus format has it: null or an array of strings. *)
Definition tags_ok (v : pyval) : bool :=
  match v with
  | PNone => true
  | PList l => forallb is_PStr l
  | _ => false
  end.

Definition field_ok (ok : pyval -> bool) (key : str) (v : pyval) : bool :=
  match v with
  | PDict d => match lookup key d with Some x => ok x | None => true end
  | _ => false
  end.

(** An item whose fields, where present, have the types of the format. *)
Definition typed_item (it : pyval) : bool :=
  is_dict it && field_ok tags_ok key_special_features it.

Definition items_ok (v : pyval) : bool :=
  match v with
  | PList its => forallb typed_item its
  | _ => false
  end.

Definition typed_entity (r : pyval) : bool :=
  is_dict r && field_ok items_ok key_items r.

(** An item with every field of the format. *)
Definition wf_item (it : pyval) : bool :=
  typed_item it
  && has_key key_category it && has_key key_item_name it
  && has_key key_description it && has_key key_special_features it
  && has_key key_product_url it && has_key key_price it.

Definition wf_items (v : pyval) : bool :=
  match v with
  | PList its => forallb wf_item its
  | _ => false
  end.

Definition wf_entity (r : pyval) : bool :=
  has_key key_restaurant_name r && has_key key_location r
  && has_key key_items r && field_ok wf_items key_items r.

(** The items of an entity, in declaration order. *)
Definition items_of (r : pyval) : list pyval :=
  match getitem r key_items with
  | Returns (PList its) => its
  | _ => []
  end.

(** The catalog items, each with its entity, in declaration order. *)
Definition leaves (restaurants : list pyval) : list (pyval * pyval) :=
  flat_map (fun r => map (pair r) (items_of r)) restaurants.

(** The chunk text [txt] is the one built from item [it] of entity [r]. *)
Definition chunk_from (nfkd : str -> str) (py_repr : pyval -> str)
    (r it : pyval) (txt : str) : Prop :=
  exists rname rloc raw,
    getitem r key_restaurant_name = Returns rname
    /\ getitem r key_location = Returns rloc
    /\ txt_raw py_repr rname rloc it = Returns raw
    /\ txt = clean nfkd (Some raw).

(** The metadata [m] is the one copied from item [it] of entity [r]. *)
Definition meta_from (r it : pyval) (m : Meta) : Prop :=
  getitem r key_restaurant_name = Returns (restaurant m)
  /\ getitem it key_category = Returns (category m)
  /\ getitem it key_item_name = Returns (item_name m)
  /\ getitem it key_product_url = Returns (url m)
  /\ getitem it key_price = Returns (price m)
  /\ getitem it key_special_features = Returns (features m).

(** The exceptions the flattening loop can meet. *)
Definition key_or_type (e : exn) : Prop :=
  (exists key, e = KeyError key) \/ e = TypeError.

Definition is_KeyError (e : exn) : Prop := exists key, e = KeyError key.

(** The conditions on one item under which its loop body raises only [P]. *)
Definition item_raises_only (P : exn -> Prop) (it : pyval) : Prop :=
  (forall key e, getitem it key = Raises e -> P e)
  /\ (forall feats e, getitem it key_special_features = Returns feats ->
                      str_join [SP] (py_or feats (PList [])) = Raises e -> P e).

(** The same for one entity. *)
Definition entity_raises_only (P : exn -> Prop) (r : pyval) : Prop :=
  (forall key e, getitem r key = Raises e -> P e)
  /\ (forall items, getitem r key_items = Returns items ->
         (forall e, py_iter items = Raises e -> P e)
         /\ (forall its it, py_iter items = Returns its -> In it its ->
                            item_raises_only P it)).

(** The two lists are equally long; the chunk list is one entry longer. *)
Definition level (g : Chunks) : Prop := length (texts g) = length (meta g).
Definition ahead (g : Chunks) : Prop := length (texts g) = S (length (meta g)).

(** The store [g] behind the entries of the store [p]. *)
Definition shift (p g : Chunks) : Chunks :=
  {| texts := texts p ++ texts g; meta := meta p ++ meta g |}.

(** One of the other keys the loop subscripts is absent: the item list of
    the entity, or the description, feature list, URL or price of one of
    its items. *)
Definition other_key_absent (r : pyval) : Prop :=
  has_key key_items r = false
  \/ exists it, In it (items_of r)
                /\ (has_key key_description it = false
                    \/ has_key key_special_features it = false
                    \/ has_key key_product_url it = false
                    \/ has_key key_price it = false).

Definition raises {A} (m : outcome A) : Prop := exists e, m = Raises e.

(** A required field of the entity or of one of its items is absent. *)
Definition required_absent (r : pyval) : Prop :=
  has_key key_restaurant_name r = false
  \/ has_key key_location r = false
  \/ exists it, In it (items_of r)
                /\ (has_key key_category it = false
                    \/ has_key key_item_name it = false).

(** ** A small instance, for the examples *)

Module Sample.

(** A fragment of the NFKD table: e-acute, the fi ligature and the
    no-break space decompose, every other code point stays. *)
Definition decompose (c : N) : str :=
  if (c =? 0xE9)%N then [0x65; 0x301]%N
  else if (c =? 0xFB01)%N then [0x66; 0x69]%N
  else if (c =? 0xA0)%N then [0x20]%N
  else [c].

Definition nfkd (s : str) : str := flat_map decompose s.

(** Renders the constants; other non-strings are not needed here. *)
Definition py_repr (v : pyval) : str :=
  match v with
  | PNone => lit "None"
  | PBool true => lit "True"
  | PBool false => lit "False"
  | _ => []
  end.

Definition item (cat name descr : string) (feats : pyval) (cost : Q) : pyval :=
  PDict [ (key_category, PStr (lit cat));
          (key_item_name, PStr (lit name));
          (key_description, PStr (lit descr));
          (key_special_features, feats);
          (key_product_url, PStr (lit "https://example.test/" ++ lit name));
          (key_price, PFloat cost) ].

Definition green_fork : pyval :=
  PDict [ (key_restaurant_name, PStr (lit "Green Fork"));
          (key_location, PStr (lit "Pune"));
          (key_items, PList [
             item "Salads" "Garden Salad" "vegetarian, no meat"
                  (PList [PStr (lit "vegan"); PStr (lit "gluten-free")]) (7 # 2);
             item "Burgers" "Big Mac" "Two beef patties." PNone (11 # 2) ]) ].

Definition tea_house : pyval :=
  PDict [ (key_restaurant_name, PStr (lit "Tea House"));
          (key_location, PStr (lit "Goa"));
          (key_items, PList [
             item "Drinks" "Masala Chai" "Spiced TEA" (PList []) (3 # 2) ]) ].

Definition restaurants : list pyval := [green_fork; tea_house].

(** An entity without its name. *)
Definition nameless : pyval :=
  PDict [ (key_location, PStr (lit "Pune")); (key_items, PList []) ].

Definition chunks : Chunks := snd (flatten nfkd py_repr restaurants).

(** A toy embedding: how often "a", "e" and the space occur, in eighths. *)
Definition count (c : N) (s : str) : Z :=
  Z.of_nat (length (filter (N.eqb c) s)).

Definition embed (s : str) : list Q :=
  [count 0x61 s # 8; count 0x65 s # 8; count 0x20 s # 8].

Definition encode (batch : list str) : outcome (list (list Q)) :=
  Returns (map embed batch).

(** Squared Euclidean distance. *)
Definition sq_l2 (a b : list Q) : Q :=
  Qred (fold_right Qplus 0%Q
          (map (fun p => (fst p - snd p) * (fst p - snd p))%Q (combine a b))).

Fixpoint insert_hit (h : Q * Z) (hits : list (Q * Z)) : list (Q * Z) :=
  match hits with
  | [] => [h]
  | h' :: rest =>
      if Qle_bool (fst h') (fst h) then h' :: insert_hit h rest else h :: hits
  end.

Definition rank_all (vectors : list (list Q)) (q : list Q) : list (Q * Z) :=
  fold_left (fun acc h => insert_hit h acc)
            (combine (map (sq_l2 q) vectors)
                     (map Z.of_nat (seq 0 (length vectors))))
            [].

(** Modelled from the spec: the Vector Index's [search] (section 4.3), the
    index library itself being outside the repository.  Exact search under
    squared Euclidean distance: all stored vectors ranked by distance,
    the first [k] returned; [k <= 0] is rejected with an input error. *)
Definition search (vectors : list (list Q)) (queries : list (list Q)) (k : Z)
  : outcome (list (list Q) * list (list Z)) :=
  if (k <=? 0)%Z then Raises (External "InputError")
  else
    let hits := map (fun q => firstn (Z.to_nat k) (rank_all vectors q)) queries in
    Returns (map (map fst) hits, map (map snd) hits).

(** The index built over the chunks of the sample catalog. *)
Definition vectors : list (list Q) := map embed (texts chunks).





(** A generator that stutters, and providers that fail. *)
Definition tokenizer (prompt : str) : outcome str := Returns prompt.
Definition generate (inputs : str) : outcome str :=
  Returns (lit "yes yes  the the salad is is vegan").
Definition decode (out_ids : str) : outcome str := Returns out_ids.

Definition encode_down (batch : list str) : outcome (list (list Q)) :=
  Raises (External "RuntimeError").
Definition generate_down (inputs : str) : outcome str :=
  Raises (External "RuntimeError").

Definition retrieve := retrieve nfkd (list (list Q)) encode (search vectors).
Definition answer :=
  answer nfkd (list (list Q)) encode (search vectors) str str
         tokenizer generate decode.

Definition chat : Conversation.t := Conversation.init HISTORY_MAX.

(** An item with its text fields but without URL, and a catalog with it. *)
Definition no_url_item : pyval :=
  PDict [ (key_category, PStr (lit "Sides"));
          (key_item_name, PStr (lit "Fries"));
          (key_description, PStr (lit "Salted."));
          (key_special_features, PNone);
          (key_price, PFloat (5 # 2)) ].

Definition snack_bar : pyval :=
  PDict [ (key_restaurant_name, PStr (lit "Snack Bar"));
          (key_location, PStr (lit "Pune"));
          (key_items, PList [no_url_item]) ].

(** The catalog as a keyed map, and a file reader that yields it. *)
Definition keyed_kb : pyval :=
  PDict [ (lit "r1", green_fork); (lit "r2", tea_house) ].

Definition json_load (path : str) : outcome pyval :=
  if str_eqb path KB_PATH then Returns keyed_kb
  else Raises (External "FileNotFoundError").

(** The chunk lists of a catalog that has lost all but its first item,
    against the index built before: a stale index. *)
Definition stale_chunks : Chunks :=
  {| texts := firstn 1 (texts chunks); meta := firstn 1 (meta chunks) |}.

End Sample.

(** * Properties *)

(** ** Characters and whitespace *)

Section Characters.

Lemma isspace_iff c :
  isspace c = true <->
  (0x09 <= c <= 0x0D \/ 0x1C <= c <= 0x20 \/ c = 0x85 \/ c = 0xA0 \/ c = 0x1680
   \/ 0x2000 <= c <= 0x200A \/ c = 0x2028 \/ c = 0x2029 \/ c = 0x202F
   \/ c = 0x205F \/ c = 0x3000)%N.
Proof.
  unfold isspace.
  rewrite !orb_true_iff, !andb_true_iff, !N.leb_le, !N.eqb_eq. tauto.
Qed.

Lemma is_word_iff c :
  is_word c = true <->
  (48 <= c <= 57 \/ 65 <= c <= 90 \/ c = 95 \/ 97 <= c <= 122)%N.
Proof.
  unfold is_word.
  rewrite !orb_true_iff, !andb_true_iff, !N.leb_le, !N.eqb_eq. tauto.
Qed.

Lemma is_ascii_iff c : is_ascii c = true <-> (c < 128)%N.
Proof. unfold is_ascii. apply N.ltb_lt. Qed.

Lemma word_not_space c : is_word c = true -> isspace c = false.
Proof.
  intros Hw. apply is_word_iff in Hw.
  destruct (isspace c) eqn:Hs; [| reflexivity].
  apply isspace_iff in Hs. lia.
Qed.

Lemma lower_range c :
  (65 <= c <= 90 /\ lower c = c + 32 \/ ~ (65 <= c <= 90) /\ lower c = c)%N.
Proof.
  unfold lower.
  destruct ((65 <=? c) && (c <=? 90))%N eqn:H.
  - apply andb_true_iff in H. rewrite !N.leb_le in H. left. lia.
  - right. split; [| reflexivity]. intros [H1 H2].
    apply N.leb_le in H1, H2. rewrite H1, H2 in H. discriminate.
Qed.

(** What [lower] then [punct_sub] make of one ASCII character. *)
Lemma lowered_punct c :
  is_ascii c = true ->
  let c' := lower c in
  let d := if is_word c' || isspace c' then c' else SP in
  isspace d = true \/ plain d.
Proof.
  intros Ha c' d. subst d.
  destruct (is_word c') eqn:Hw; simpl.
  - right. repeat split; trivial.
    + apply is_ascii_iff. apply is_ascii_iff in Ha.
      subst c'. destruct (lower_range c) as [[? ->] | [? ->]]; lia.
    + subst c'. apply is_word_iff in Hw.
      destruct (lower_range c) as [[? E] | [? E]]; rewrite E in *.
      * destruct (lower_range (c + 32)) as [[? E'] | [? E']]; [lia | exact E'].
      * destruct (lower_range c) as [[? E'] | [? E']]; [lia | exact E'].
  - destruct (isspace c') eqn:Hs; [now left |]. left. reflexivity.
Qed.

End Characters.

(** ** Whitespace collapse and strip *)

Section Whitespace.

Lemma spaced_collapse_ws s : spaced (collapse_ws s).
Proof.
  induction s as [| c s IH]; simpl; [exact I |].
  destruct (isspace c) eqn:Hc.
  - destruct s as [| d s']; [simpl; auto |].
    destruct (isspace d) eqn:Hd; [exact IH |].
    split; [| exact IH].
    intros _. split; [reflexivity |].
    simpl. rewrite Hd. simpl. exact Hd.
  - split; [| exact IH]. intros H. simpl in H. congruence.
Qed.

Lemma collapse_ws_spaced s : spaced s -> collapse_ws s = s.
Proof.
  induction s as [| c s IH]; simpl; [reflexivity |].
  intros [Hc Hs]. rewrite (IH Hs).
  destruct (isspace c) eqn:E; [| reflexivity].
  destruct (Hc eq_refl) as [-> Hd].
  destruct s as [| d s']; [reflexivity |].
  rewrite Hd. reflexivity.
Qed.

Lemma spaced_lstrip s : spaced s -> spaced (lstrip s).
Proof.
  induction s as [| c s IH]; [trivial |].
  intros H. simpl lstrip.
  destruct (isspace c); [apply IH; simpl in H; tauto | exact H].
Qed.

Lemma rstrip_head s : match rstrip s with [] => True | d :: _ => hd_error s = Some d end.
Proof.
  destruct s as [| c s]; simpl; [exact I |].
  destruct (rstrip s); [destruct (isspace c) |]; simpl; trivial.
Qed.

Lemma spaced_rstrip s : spaced s -> spaced (rstrip s).
Proof.
  induction s as [| c s IH]; simpl; [trivial |].
  intros [Hc Hs]. specialize (IH Hs).
  pose proof (rstrip_head s) as Hh.
  destruct (rstrip s) as [| d r].
  - destruct (isspace c) eqn:E; simpl; [exact I |].
    split; [congruence | exact I].
  - split; [| exact IH].
    intros E. destruct (Hc E) as [-> Hd]. split; [reflexivity |].
    destruct s as [| d' s']; [discriminate |]. simpl in Hh. congruence.
Qed.

Lemma rstrip_idem s : rstrip (rstrip s) = rstrip s.
Proof.
  induction s as [| c s IH]; simpl; [reflexivity |].
  destruct (rstrip s) as [| d r] eqn:E.
  - destruct (isspace c) eqn:Hc; simpl; [reflexivity |]. now rewrite Hc.
  - change (rstrip (c :: d :: r)) with
      (match rstrip (d :: r) with [] => if isspace c then [] else [c] | x => c :: x end).
    rewrite IH. reflexivity.
Qed.

Lemma lstrip_head s :
  match lstrip s with [] => True | d :: _ => isspace d = false end.
Proof.
  induction s as [| c s IH]; simpl; [exact I |].
  destruct (isspace c) eqn:E; [exact IH | exact E].
Qed.

Lemma lstrip_strip s : lstrip (strip s) = strip s.
Proof.
  unfold strip. pose proof (lstrip_head s) as Hh.
  pose proof (rstrip_head (lstrip s)) as Hr.
  destruct (rstrip (lstrip s)) as [| d r]; [reflexivity |].
  destruct (lstrip s) as [| c t]; [discriminate |].
  simpl in Hr. injection Hr as <-. simpl. now rewrite Hh.
Qed.

Lemma rstrip_strip s : rstrip (strip s) = strip s.
Proof. apply rstrip_idem. Qed.

Lemma Forall_lstrip (P : N -> Prop) s : Forall P s -> Forall P (lstrip s).
Proof.
  induction 1 as [| c s Hc Hs IH]; simpl; [constructor |].
  destruct (isspace c); [exact IH | now constructor].
Qed.

Lemma Forall_rstrip (P : N -> Prop) s : Forall P s -> Forall P (rstrip s).
Proof.
  induction 1 as [| c s Hc Hs IH]; simpl; [constructor |].
  destruct (rstrip s) as [| d r].
  - destruct (isspace c); repeat constructor; trivial.
  - constructor; [exact Hc | exact IH].
Qed.

Lemma Forall_collapse_ws s :
  Forall (fun c => isspace c = true \/ plain c) s ->
  Forall cleaned_char (collapse_ws s).
Proof.
  induction 1 as [| c s Hc Hs IH]; simpl; [constructor |].
  destruct (isspace c) eqn:E.
  - destruct s as [| d s']; [repeat constructor; now left |].
    destruct (isspace d); [exact IH |]. constructor; [now left | exact IH].
  - constructor; [| exact IH]. right. destruct Hc; [congruence | trivial].
Qed.

(** Strip after collapse yields normalized text. *)
Lemma normalized_strip_collapse s :
  Forall (fun c => isspace c = true \/ plain c) s ->
  normalized (strip (collapse_ws s)).
Proof.
  intros H. repeat split.
  - apply Forall_rstrip, Forall_lstrip, Forall_collapse_ws, H.
  - apply spaced_rstrip, spaced_lstrip, spaced_collapse_ws.
  - apply lstrip_strip.
  - apply rstrip_strip.
Qed.

End Whitespace.

(** ** Step 2: the cleaner *)

Section Cleaner.

Variable nfkd : str -> str.

(** ASCII characters have no decomposition. *)
Hypothesis nfkd_ascii :
  forall s, Forall (fun c => is_ascii c = true) s -> nfkd s = s.

Lemma punct_sub_lower_chars s :
  Forall (fun c => is_ascii c = true) s ->
  Forall (fun c => isspace c = true \/ plain c) (punct_sub (map lower s)).
Proof.
  induction 1 as [| c s Hc Hs IH]; simpl; constructor; [| exact IH].
  exact (lowered_punct c Hc).
Qed.

Lemma filter_is_ascii s : Forall (fun c => is_ascii c = true) (filter is_ascii s).
Proof. apply Forall_forall. intros c Hc. apply filter_In in Hc. tauto. Qed.

Lemma clean_normalized text : normalized (clean nfkd text).
Proof.
  assert (Hnil : normalized []) by (repeat split; constructor).
  destruct text as [[| c t] |]; simpl; trivial.
  apply normalized_strip_collapse, punct_sub_lower_chars, filter_is_ascii.
Qed.

Lemma cleaned_char_ascii c : cleaned_char c -> is_ascii c = true.
Proof. intros [-> | (_ & H & _)]; [reflexivity | exact H]. Qed.

Lemma filter_all {A} (f : A -> bool) l :
  Forall (fun x => f x = true) l -> filter f l = l.
Proof.
  induction 1 as [| x l Hx Hl IH]; simpl; [reflexivity |].
  now rewrite Hx, IH.
Qed.

Lemma lower_cleaned s : Forall cleaned_char s -> map lower s = s.
Proof.
  induction 1 as [| c s Hc Hs IH]; simpl; [reflexivity |].
  rewrite IH. f_equal. destruct Hc as [-> | (_ & _ & H)]; [reflexivity | exact H].
Qed.

Lemma punct_sub_cleaned s : Forall cleaned_char s -> punct_sub s = s.
Proof.
  induction 1 as [| c s Hc Hs IH]; simpl; [reflexivity |].
  fold (punct_sub s). rewrite IH. f_equal.
  destruct Hc as [-> | (H & _ & _)]; [reflexivity | now rewrite H].
Qed.

(** The cleaner leaves normalized text as it is. *)
Lemma clean_fixes_normalized s : normalized s -> clean nfkd (Some s) = s.
Proof.
  intros (Hc & Hsp & Hl & Hr).
  destruct s as [| c t]; [reflexivity |].
  unfold clean.
  assert (Ha : Forall (fun c => is_ascii c = true) (c :: t)).
  { eapply Forall_impl; [| exact Hc]. exact cleaned_char_ascii. }
  rewrite (nfkd_ascii _ Ha), (filter_all _ _ Ha), (lower_cleaned _ Hc),
    (punct_sub_cleaned _ Hc), (collapse_ws_spaced _ Hsp).
  unfold strip. now rewrite Hl, Hr.
Qed.

(** C8. The text cleaner is idempotent: cleaning cleaned text returns it
    unchanged.  It is defined on every input, and maps both [None] and
    the empty string to the empty string. *)
Theorem clean_idempotent :
  (forall text : option str, clean nfkd (Some (clean nfkd text)) = clean nfkd text)
  /\ clean nfkd None = []
  /\ clean nfkd (Some []) = [].
Proof.
  split; [| split; reflexivity].
  intros text. apply clean_fixes_normalized, clean_normalized.
Qed.

End Cleaner.

Lemma sample_nfkd_ascii s :
  Forall (fun c => is_ascii c = true) s -> Sample.nfkd s = s.
Proof.
  induction 1 as [| c s Hc Hs IH]; [reflexivity |].
  unfold Sample.nfkd in *. simpl. rewrite IH.
  apply is_ascii_iff in Hc. unfold Sample.decompose.
  destruct (N.eqb_spec c 0xE9); [lia |].
  destruct (N.eqb_spec c 0xFB01); [lia |].
  destruct (N.eqb_spec c 0xA0); [lia |]. reflexivity.
Qed.

Lemma clean_idempotent_witness :
  (forall s, Forall (fun c => is_ascii c = true) s -> Sample.nfkd s = s)
  /\ (let once := clean Sample.nfkd (Some (lit "  Big Mac  is VEGETARIAN_food?? ")) in
      clean Sample.nfkd (Some once) = once).
Proof.
  split; [exact sample_nfkd_ascii |].
  exact (proj1 (clean_idempotent Sample.nfkd sample_nfkd_ascii) _).
Defined.

(** ** Step 10: duplicate-token collapse *)

Section Dedupe.

Lemma str_eqb_eq a b : str_eqb a b = true <-> a = b.
Proof.
  revert b. induction a as [| x a IH]; destruct b as [| y b]; simpl;
    try (split; [discriminate | discriminate]); [tauto |].
  rewrite andb_true_iff, N.eqb_eq, IH. split.
  - now intros [-> ->].
  - intros E. injection E as -> ->. tauto.
Qed.

Lemma str_eqb_refl a : str_eqb a a = true.
Proof. now apply str_eqb_eq. Qed.

(** The loop, started with [p] as the last kept token, keeps what the
    specification's rule keeps. *)
Lemma dedupe_loop rest : forall out p,
  fold_left dedupe_step rest (out ++ [p])
  = out ++ p :: keep_if_differs (Some p) rest.
Proof.
  induction rest as [| tok rest IH]; intros out p; simpl; [reflexivity |].
  unfold dedupe_step at 2. rewrite last_last.
  destruct (str_eqb tok p).
  - apply IH.
  - rewrite IH, <- app_assoc. reflexivity.
Qed.

Lemma dedupe_tokens_keep text :
  dedupe_tokens text = join [SP] (keep_if_differs None (split text)).
Proof.
  unfold dedupe_tokens. destruct (split text) as [| t0 rest]; [reflexivity |].
  simpl tl. f_equal. exact (dedupe_loop rest [] t0).
Qed.

Lemma split_tokens s : Forall token (split s).
Proof.
  induction s as [| c s IH]; simpl; [constructor |].
  destruct (isspace c) eqn:Hc; [exact IH |].
  assert (Hone : token [c]) by (split; [discriminate | now repeat constructor]).
  destruct s as [| d s']; [now repeat constructor |].
  destruct (isspace d) eqn:Hd; [now constructor |].
  destruct (split (d :: s')) as [| t ts]; [now repeat constructor |].
  inversion IH as [| ? ? [Ht1 Ht2] Hts]; subst.
  constructor; [| exact Hts]. split; [discriminate | now constructor].
Qed.

Lemma keep_tokens toks : forall prev,
  Forall token toks -> Forall token (keep_if_differs prev toks).
Proof.
  induction toks as [| t toks IH]; intros prev H; simpl; [constructor |].
  inversion H; subst.
  destruct prev as [p |]; [destruct (str_eqb t p) |]; auto.
Qed.

Lemma split_token_then_space t s :
  token t -> split (t ++ SP :: s) = t :: split s.
Proof.
  intros [Hne Hall]. induction t as [| c t IH]; [congruence |].
  inversion Hall as [| ? ? Hc Ht]; subst.
  destruct t as [| c2 t'].
  - simpl. now rewrite Hc.
  - change ((c :: c2 :: t') ++ SP :: s) with (c :: (c2 :: t') ++ SP :: s).
    assert (E : split ((c2 :: t') ++ SP :: s) = (c2 :: t') :: split s)
      by (apply IH; [discriminate | exact Ht]).
    inversion Ht as [| ? ? Hc2 _]; subst.
    change (split (c :: (c2 :: t') ++ SP :: s)) with
      (if isspace c then split ((c2 :: t') ++ SP :: s)
       else if isspace c2 then [c] :: split ((c2 :: t') ++ SP :: s)
            else match split ((c2 :: t') ++ SP :: s) with
                 | t :: ts => (c :: t) :: ts
                 | [] => [[c]]
                 end).
    now rewrite Hc, Hc2, E.
Qed.

Lemma split_one_token t : token t -> split t = [t].
Proof.
  intros [Hne Hall]. induction t as [| c t IH]; [congruence |].
  inversion Hall as [| ? ? Hc Ht]; subst.
  destruct t as [| c2 t'].
  - simpl. now rewrite Hc.
  - assert (E : split (c2 :: t') = [c2 :: t'])
      by (apply IH; [discriminate | exact Ht]).
    inversion Ht as [| ? ? Hc2 _]; subst.
    change (split (c :: c2 :: t')) with
      (if isspace c then split (c2 :: t')
       else if isspace c2 then [c] :: split (c2 :: t')
            else match split (c2 :: t') with
                 | t :: ts => (c :: t) :: ts
                 | [] => [[c]]
                 end).
    now rewrite Hc, Hc2, E.
Qed.

(** Splitting what [join] put together gives the tokens back. *)
Lemma split_join toks : Forall token toks -> split (join [SP] toks) = toks.
Proof.
  induction 1 as [| t toks Ht Hts IH]; [reflexivity |].
  destruct toks as [| t2 toks'].
  - simpl. now apply split_one_token.
  - change (join [SP] (t :: t2 :: toks')) with (t ++ SP :: join [SP] (t2 :: toks')).
    rewrite split_token_then_space by exact Ht. now rewrite IH.
Qed.

Lemma keep_no_repeat toks : forall p,
  no_adjacent_repeat (p :: toks) = true -> keep_if_differs (Some p) toks = toks.
Proof.
  induction toks as [| t toks IH]; intros p H; [reflexivity |].
  change (no_adjacent_repeat (p :: t :: toks))
    with (negb (str_eqb p t) && no_adjacent_repeat (t :: toks)) in H.
  apply andb_true_iff in H. destruct H as [Hpt Hrest].
  simpl. destruct (str_eqb t p) eqn:E.
  - apply str_eqb_eq in E. subst. rewrite str_eqb_refl in Hpt. discriminate.
  - now rewrite IH.
Qed.

Lemma keep_none_no_repeat toks :
  no_adjacent_repeat toks = true -> keep_if_differs None toks = toks.
Proof.
  destruct toks as [| t toks]; [reflexivity |].
  intros H. simpl. now rewrite keep_no_repeat.
Qed.

Lemma split_dedupe_tokens text :
  split (dedupe_tokens text) = keep_if_differs None (split text).
Proof.
  rewrite dedupe_tokens_keep. apply split_join, keep_tokens, split_tokens.
Qed.

(** C6. [dedupe_tokens] splits on whitespace, keeps a token only if it
    differs, compared exactly, from the previously kept token, and joins
    the kept tokens with single spaces.  A text with tokens
    a a b b b c comes out with tokens a b c, tokens differing in case
    only are both kept, and a text without adjacent equal tokens keeps
    its token sequence. *)
Theorem dedupe_tokens_collapse :
  (forall text,
      dedupe_tokens text = join [SP] (keep_if_differs None (split text))
      /\ split (dedupe_tokens text) = keep_if_differs None (split text))
  /\ (forall text,
        split text = [lit "a"; lit "a"; lit "b"; lit "b"; lit "b"; lit "c"] ->
        split (dedupe_tokens text) = [lit "a"; lit "b"; lit "c"])
  /\ split (dedupe_tokens (lit "The the the")) = [lit "The"; lit "the"]
  /\ (forall text,
        no_adjacent_repeat (split text) = true ->
        split (dedupe_tokens text) = split text).
Proof.
  repeat split.
  - apply dedupe_tokens_keep.
  - apply split_dedupe_tokens.
  - intros text E. rewrite split_dedupe_tokens, E. reflexivity.
  - intros text H. rewrite split_dedupe_tokens. now apply keep_none_no_repeat.
Qed.

Lemma dedupe_tokens_collapse_witness :
  split (lit " a  a b b b c") = [lit "a"; lit "a"; lit "b"; lit "b"; lit "b"; lit "c"]
  /\ split (dedupe_tokens (lit " a  a b b b c")) = [lit "a"; lit "b"; lit "c"]
  /\ no_adjacent_repeat (split (lit "to be or not to be")) = true
  /\ split (dedupe_tokens (lit "to be or not to be")) = split (lit "to be or not to be").
Proof.
  split; [reflexivity |].
  split; [apply (proj1 (proj2 dedupe_tokens_collapse)); reflexivity |].
  split; [reflexivity |].
  apply (proj2 (proj2 (proj2 dedupe_tokens_collapse))). reflexivity.
Defined.

End Dedupe.

(** ** Step 8: conversation memory *)

Section Memory.

Import Conversation.

Lemma add_max c u a : max (add c u a) = max c.
Proof. unfold add. now destruct (_ >? _)%Z. Qed.

Lemma add_all_snoc c turns ua :
  add_all c (turns ++ [ua]) = add (add_all c turns) (fst ua) (snd ua).
Proof. unfold add_all. now rewrite fold_left_app. Qed.

Lemma tl_skipn {A} k (l : list A) : tl (skipn k l) = skipn (S k) l.
Proof.
  revert l. induction k as [| k IH]; intros [| x l]; simpl; trivial.
Qed.

(** Dropping the oldest of the window with the new turn slides the window. *)
Lemma window_slides {A} k (l : list A) x :
  k < length l -> tl (skipn k l ++ [x]) = skipn (S k) (l ++ [x]).
Proof.
  intros Hk. rewrite skipn_app.
  replace (S k - length l) with 0 by lia.
  rewrite <- tl_skipn. change (skipn 0 [x]) with [x].
  destruct (skipn k l) as [| y r] eqn:E; [| reflexivity].
  apply (f_equal (@length A)) in E. rewrite length_skipn in E. simpl in E. lia.
Qed.

(** After any run of [add] from the empty memory of capacity [N >= 1]:
    the capacity is unchanged and the memory is the window of the last
    [N] turns. *)
Lemma add_all_window N turns :
  (1 <= N)%Z ->
  max (add_all (init N) turns) = N
  /\ memory (add_all (init N) turns) = skipn (length turns - Z.to_nat N) turns.
Proof.
  intros HN. induction turns as [| ua turns [IHmax IHmem]] using rev_ind.
  - split; reflexivity.
  - destruct ua as [u a]. rewrite add_all_snoc. simpl fst. simpl snd.
    split; [now rewrite add_max |].
    unfold add. rewrite IHmax, IHmem.
    rewrite !length_app, length_skipn. simpl length.
    destruct (_ >? _)%Z eqn:E; simpl memory.
    + apply Z.gtb_lt in E.
      replace (length turns + 1 - Z.to_nat N) with (S (length turns - Z.to_nat N)) by lia.
      apply window_slides. lia.
    + rewrite Z.gtb_ltb in E. apply Z.ltb_ge in E.
      replace (length turns - Z.to_nat N) with 0 by lia.
      replace (length turns + 1 - Z.to_nat N) with 0 by lia.
      reflexivity.
Qed.

(** C5. From the empty memory of capacity [N >= 1], after each [add] of a
    sequence (after the first [n], for every [n]) the memory holds at most
    [N] turns, and they are the most recent min(N, number of adds) turns,
    oldest first. *)
Theorem memory_bounded_recent (N : Z) (turns : list (str * str)) (n : nat) :
  (1 <= N)%Z ->
  let added := firstn n turns in
  let conv := add_all (init N) added in
  (Z.of_nat (length (memory conv)) <= N)%Z
  /\ memory conv = most_recent (Nat.min (Z.to_nat N) (length added)) added.
Proof.
  intros HN added conv.
  destruct (add_all_window N added HN) as [_ Hmem]. fold conv in Hmem.
  split.
  - rewrite Hmem, length_skipn. lia.
  - rewrite Hmem. unfold most_recent. f_equal. lia.
Qed.

Lemma memory_bounded_recent_witness :
  (1 <= HISTORY_MAX)%Z
  /\ map fst (memory (add_all (init HISTORY_MAX)
                        [(lit "q1", lit "a1"); (lit "q2", lit "a2");
                         (lit "q3", lit "a3"); (lit "q4", lit "a4")]))
     = [lit "q2"; lit "q3"; lit "q4"].
Proof.
  split; [unfold HISTORY_MAX; lia |].
  pose proof (memory_bounded_recent HISTORY_MAX
                [(lit "q1", lit "a1"); (lit "q2", lit "a2");
                 (lit "q3", lit "a3"); (lit "q4", lit "a4")] 4) as H.
  simpl firstn in H.
  destruct H as [_ H]; [unfold HISTORY_MAX; lia |].
  rewrite H. reflexivity.
Defined.

(** C10. [format_history] is the empty string for a memory without turns
    and ends in a newline for any other; so in the prompt the text before
    the CONTEXT label ends in a newline, and the label starts its own
    line. *)
Theorem format_history_ends_line :
  (forall cap, format_history {| max := cap; memory := [] |} = [])
  /\ (forall cap turn turns, exists body,
         format_history {| max := cap; memory := turn :: turns |} = body ++ [NL])
  /\ (forall conv query ctx_chunks, exists before,
         SYSTEM ++ [NL; NL] ++ format_history conv = before ++ [NL]
         /\ make_prompt query ctx_chunks (format_history conv)
            = (before ++ [NL]) ++ lit "CONTEXT:" ++ [NL] ++ join [NL] ctx_chunks
              ++ [NL; NL] ++ lit "Question: " ++ query ++ [NL] ++ lit "Answer:").
Proof.
  split; [reflexivity |]. split.
  - intros cap turn turns. unfold format_history. simpl memory. eauto.
  - intros conv query ctx_chunks.
    assert (H : exists before, SYSTEM ++ [NL; NL] ++ format_history conv = before ++ [NL]).
    { unfold format_history. destruct (memory conv) as [| turn turns].
      - exists (SYSTEM ++ [NL]). rewrite <- app_assoc. reflexivity.
      - set (body := join [NL] _).
        exists (SYSTEM ++ [NL; NL] ++ body). rewrite <- !app_assoc. reflexivity. }
    destruct H as [before H]. exists before. split; [exact H |].
    rewrite <- H. unfold make_prompt. rewrite <- !app_assoc. reflexivity.
Qed.

End Memory.

(** ** Step 5: flattening the catalog *)

Section Flatten.

Variable nfkd : str -> str.
Variable py_repr : pyval -> str.

Lemma has_key_getitem key v :
  has_key key v = true -> exists x, getitem v key = Returns x.
Proof.
  destruct v; try discriminate. simpl.
  destruct (lookup key d); [eauto | discriminate].
Qed.

Lemma lacks_key_getitem key v :
  has_key key v = false -> exists e, getitem v key = Raises e.
Proof.
  destruct v; simpl; eauto.
  destruct (lookup key d); [discriminate | eauto].
Qed.

Lemma field_ok_getitem ok key v x :
  field_ok ok key v = true -> getitem v key = Returns x -> ok x = true.
Proof.
  destruct v; try discriminate. simpl.
  destruct (lookup key d); [| discriminate].
  intros H E. now injection E as <-.
Qed.

Lemma as_strs_tags l :
  forallb is_PStr l = true -> exists strs, as_strs l = Returns strs.
Proof.
  induction l as [| v l IH]; simpl; [eauto |].
  intros H. apply andb_true_iff in H. destruct H as [Hv Hl].
  destruct v; try discriminate. destruct (IH Hl) as [strs ->]. simpl. eauto.
Qed.

(** The feature list of the corpus format always joins. *)
Lemma str_join_tags sep feats :
  tags_ok feats = true ->
  exists tags, str_join sep (py_or feats (PList [])) = Returns tags.
Proof.
  destruct feats; try discriminate; intros H; unfold py_or, str_join.
  - simpl. eauto.
  - destruct (truthy (PList l)); simpl; [| eauto].
    destruct (as_strs_tags l H) as [strs ->]. simpl. eauto.
Qed.

(** *** Running the loops *)

(** A loop raises if the body raises on one of the elements, whatever
    the store it is reached with. *)
Lemma for_each_raises {S A} (body : A -> Run S unit) l x :
  In x l ->
  (forall s, exists e s', body x s = (Raises e, s')) ->
  forall s, exists e s', for_each body l s = (Raises e, s').
Proof.
  intros Hin Hx. induction l as [| y l IH]; [contradiction |].
  intros s. simpl. unfold bind.
  destruct (body y s) as [[[] | e] s'] eqn:E; [| eauto].
  destruct Hin as [-> | Hin]; [| now apply IH].
  destruct (Hx s) as (e & s'' & E'). congruence.
Qed.

(** A loop raises only what its body raises. *)
Lemma for_each_raises_only {S A} (P : exn -> Prop) (body : A -> Run S unit) l :
  (forall x s e s', In x l -> body x s = (Raises e, s') -> P e) ->
  forall s e s', for_each body l s = (Raises e, s') -> P e.
Proof.
  induction l as [| y l IH]; intros Hbody s e s'; simpl.
  - unfold ret. discriminate.
  - unfold bind. destruct (body y s) as [[[] | e0] s0] eqn:E.
    + apply IH. intros x t e1 t' Hx. apply Hbody. now right.
    + intros [= <- <-]. eapply Hbody; [now left | exact E].
Qed.

(** *** Well-formed catalogs *)

Lemma flatten_item_wf r rname rloc it g :
  getitem r key_restaurant_name = Returns rname ->
  getitem r key_location = Returns rloc ->
  wf_item it = true ->
  exists txt m,
    flatten_item nfkd py_repr rname rloc it g
    = (Returns tt, {| texts := texts g ++ [txt]; meta := meta g ++ [m] |})
    /\ chunk_from nfkd py_repr r it txt /\ meta_from r it m.
Proof.
  intros Hn Hl Hwf. unfold wf_item, typed_item in Hwf.
  rewrite !andb_true_iff in Hwf.
  destruct Hwf as [[[[[[[_ Htags] Hc] Hi] Hde] Hsf] Hu] Hp].
  destruct (has_key_getitem _ _ Hc) as [cat Ecat].
  destruct (has_key_getitem _ _ Hi) as [name Ename].
  destruct (has_key_getitem _ _ Hde) as [descr Edescr].
  destruct (has_key_getitem _ _ Hsf) as [feats Efeats].
  destruct (has_key_getitem _ _ Hu) as [u Eu].
  destruct (has_key_getitem _ _ Hp) as [p Ep].
  pose proof (field_ok_getitem _ _ _ _ Htags Efeats) as Hok.
  destruct (str_join_tags [SP] feats Hok) as [tags Etags].
  assert (Eraw : exists raw, txt_raw py_repr rname rloc it = Returns raw).
  { unfold txt_raw. unfold key_category, key_item_name, key_description,
      key_special_features in *.
    rewrite Ecat, Ename, Edescr, Efeats. simpl. rewrite Etags. simpl. eauto. }
  destruct Eraw as [raw Eraw].
  assert (Em : item_meta rname it
               = Returns {| restaurant := rname; category := cat; item_name := name;
                            url := u; price := p; features := feats |}).
  { unfold item_meta. unfold key_category, key_item_name, key_product_url,
      key_price, key_special_features in *.
    now rewrite Ecat, Ename, Eu, Ep, Efeats. }
  eexists _, _. split; [| split].
  - unfold flatten_item, bind, lift, modify. rewrite Eraw, Em. reflexivity.
  - exists rname, rloc, raw. auto.
  - repeat split; assumption.
Qed.

Lemma flatten_items_wf r rname rloc its :
  getitem r key_restaurant_name = Returns rname ->
  getitem r key_location = Returns rloc ->
  forallb wf_item its = true ->
  forall g, exists txts ms,
    for_each (flatten_item nfkd py_repr rname rloc) its g
    = (Returns tt, {| texts := texts g ++ txts; meta := meta g ++ ms |})
    /\ Forall2 (chunk_from nfkd py_repr r) its txts
    /\ Forall2 (meta_from r) its ms.
Proof.
  intros Hn Hl. induction its as [| it its IH]; intros Hwf g.
  - exists [], []. rewrite !app_nil_r. destruct g. repeat split; constructor.
  - simpl in Hwf. apply andb_true_iff in Hwf. destruct Hwf as [Hit Hits].
    destruct (flatten_item_wf r rname rloc it g Hn Hl Hit) as (txt & m & E & Ht & Hm).
    destruct (IH Hits {| texts := texts g ++ [txt]; meta := meta g ++ [m] |})
      as (txts & ms & E' & Hts & Hms).
    exists (txt :: txts), (m :: ms). split; [| split; constructor; assumption].
    simpl for_each. unfold bind. rewrite E, E'. simpl. now rewrite <- !app_assoc.
Qed.

Lemma Forall2_paired {A B C} (R : A -> B -> C -> Prop) a l l' :
  Forall2 (R a) l l' ->
  Forall2 (fun p => R (fst p) (snd p)) (map (pair a) l) l'.
Proof. induction 1; simpl; constructor; auto. Qed.

Lemma flatten_entity_wf r g :
  wf_entity r = true ->
  exists txts ms,
    flatten_entity nfkd py_repr r g
    = (Returns tt, {| texts := texts g ++ txts; meta := meta g ++ ms |})
    /\ Forall2 (fun p => chunk_from nfkd py_repr (fst p) (snd p))
               (map (pair r) (items_of r)) txts
    /\ Forall2 (fun p => meta_from (fst p) (snd p))
               (map (pair r) (items_of r)) ms.
Proof.
  intros Hwf. unfold wf_entity in Hwf. rewrite !andb_true_iff in Hwf.
  destruct Hwf as [[[Hn Hl] Hi] Hok].
  destruct (has_key_getitem _ _ Hn) as [rname En].
  destruct (has_key_getitem _ _ Hl) as [rloc El].
  destruct (has_key_getitem _ _ Hi) as [items Ei].
  pose proof (field_ok_getitem _ _ _ _ Hok Ei) as Hits.
  destruct items as [| | | | | its |]; try discriminate. simpl in Hits.
  destruct (flatten_items_wf r rname rloc its En El Hits g)
    as (txts & ms & E & Hts & Hms).
  exists txts, ms. split; [| split].
  - unfold flatten_entity, bind, lift.
    unfold key_restaurant_name, key_location, key_items in *.
    now rewrite En, El, Ei.
  - unfold items_of. rewrite Ei. now apply Forall2_paired.
  - unfold items_of. rewrite Ei. now apply Forall2_paired.
Qed.

Lemma flatten_entities_wf restaurants :
  forallb wf_entity restaurants = true ->
  forall g, exists txts ms,
    for_each (flatten_entity nfkd py_repr) restaurants g
    = (Returns tt, {| texts := texts g ++ txts; meta := meta g ++ ms |})
    /\ Forall2 (fun p => chunk_from nfkd py_repr (fst p) (snd p))
               (leaves restaurants) txts
    /\ Forall2 (fun p => meta_from (fst p) (snd p)) (leaves restaurants) ms.
Proof.
  induction restaurants as [| r rs IH]; intros Hwf g.
  - exists [], []. rewrite !app_nil_r. destruct g. repeat split; constructor.
  - simpl in Hwf. apply andb_true_iff in Hwf. destruct Hwf as [Hr Hrs].
    destruct (flatten_entity_wf r g Hr) as (txts1 & ms1 & E1 & Ht1 & Hm1).
    destruct (IH Hrs {| texts := texts g ++ txts1; meta := meta g ++ ms1 |})
      as (txts2 & ms2 & E2 & Ht2 & Hm2).
    exists (txts1 ++ txts2), (ms1 ++ ms2). split; [| split].
    + simpl for_each. unfold bind. rewrite E1, E2. simpl. now rewrite !app_assoc.
    + simpl. now apply Forall2_app.
    + simpl. now apply Forall2_app.
Qed.

Lemma Forall2_nth_error {A B} (R : A -> B -> Prop) l1 l2 :
  Forall2 R l1 l2 ->
  forall i a, nth_error l1 i = Some a ->
              exists b, nth_error l2 i = Some b /\ R a b.
Proof.
  induction 1 as [| x y l1 l2 Hxy H IH]; intros [| i] a; simpl; try discriminate.
  - intros [= <-]. eauto.
  - apply IH.
Qed.

(** C4. Flattening a well-formed corpus returns, with a chunk list and a
    metadata list of the same length, one position per catalog item in
    declaration order; at every position the chunk and the metadata come
    from the same item of the same entity: the chunk is the cleaned text
    built from it, the metadata carries its entity name, category and
    item name. *)
Theorem flatten_aligned (restaurants : list pyval) :
  forallb wf_entity restaurants = true ->
  exists g,
    flatten nfkd py_repr restaurants = (Returns tt, g)
    /\ length (texts g) = length (meta g)
    /\ length (texts g) = length (leaves restaurants)
    /\ forall i r it,
         nth_error (leaves restaurants) i = Some (r, it) ->
         exists txt m,
           nth_error (texts g) i = Some txt
           /\ nth_error (meta g) i = Some m
           /\ chunk_from nfkd py_repr r it txt
           /\ meta_from r it m.
Proof.
  intros Hwf.
  destruct (flatten_entities_wf restaurants Hwf {| texts := []; meta := [] |})
    as (txts & ms & E & Ht & Hm).
  simpl in E. exists {| texts := txts; meta := ms |}. simpl.
  pose proof (Forall2_length Ht) as Lt. pose proof (Forall2_length Hm) as Lm.
  split; [exact E |]. split; [congruence |]. split; [congruence |].
  intros i r it Hi.
  destruct (Forall2_nth_error _ _ _ Ht i _ Hi) as (txt & Etxt & Htxt).
  destruct (Forall2_nth_error _ _ _ Hm i _ Hi) as (m & Em & Hmm).
  exists txt, m. auto.
Qed.

(** *** Catalogs with an absent field *)

Lemma flatten_item_absent rname rloc it :
  has_key key_category it = false \/ has_key key_item_name it = false ->
  forall g, exists e g', flatten_item nfkd py_repr rname rloc it g = (Raises e, g').
Proof.
  intros H g. unfold flatten_item, bind, lift, txt_raw.
  fold key_category. fold key_item_name.
  destruct H as [H | H]; apply lacks_key_getitem in H; destruct H as [e E].
  - rewrite E. simpl. eauto.
  - destruct (getitem it key_category); simpl; [| eauto].
    rewrite E. simpl. eauto.
Qed.

Lemma items_of_getitem r it :
  In it (items_of r) -> getitem r key_items = Returns (PList (items_of r)).
Proof.
  unfold items_of. destruct (getitem r key_items) as [[] |]; simpl; tauto.
Qed.

Lemma flatten_entity_absent r :
  required_absent r ->
  forall g, exists e g', flatten_entity nfkd py_repr r g = (Raises e, g').
Proof.
  intros H g. unfold flatten_entity, bind, lift.
  fold key_restaurant_name. fold key_location. fold key_items.
  destruct H as [H | [H | (it & Hin & H)]].
  - apply lacks_key_getitem in H. destruct H as [e ->]. eauto.
  - apply lacks_key_getitem in H. destruct H as [e E].
    destruct (getitem r key_restaurant_name); [| eauto]. rewrite E. eauto.
  - destruct (getitem r key_restaurant_name) as [rname |]; [| eauto].
    destruct (getitem r key_location) as [rloc |]; [| eauto].
    rewrite (items_of_getitem r it Hin). simpl py_iter. cbv iota.
    apply (for_each_raises _ _ it Hin). now apply flatten_item_absent.
Qed.

(** Flattening does not return when a required field is absent. *)
Lemma flatten_absent restaurants r :
  In r restaurants -> required_absent r ->
  exists e g, flatten nfkd py_repr restaurants = (Raises e, g).
Proof.
  intros Hin H. unfold flatten.
  apply (for_each_raises _ _ r Hin). now apply flatten_entity_absent.
Qed.

(** *** What the loop can raise *)

Section RaisesOnly.

Variable P : exn -> Prop.

Lemma txt_raw_raises_only rname rloc it e :
  (forall key e, getitem it key = Raises e -> P e) ->
  (forall feats e, getitem it key_special_features = Returns feats ->
                   str_join [SP] (py_or feats (PList [])) = Raises e -> P e) ->
  txt_raw py_repr rname rloc it = Raises e -> P e.
Proof.
  intros Hget Hjoin. unfold txt_raw. fold key_special_features.
  destruct (getitem it (lit "category")) eqn:E1; simpl;
    [| intros [= <-]; eauto].
  destruct (getitem it (lit "item_name")) eqn:E2; simpl;
    [| intros [= <-]; eauto].
  destruct (getitem it (lit "description")) eqn:E3; simpl;
    [| intros [= <-]; eauto].
  destruct (getitem it key_special_features) as [feats |] eqn:E4; simpl;
    [| intros [= <-]; eauto].
  destruct (str_join [SP] (py_or feats (PList []))) eqn:E5; simpl;
    [discriminate | intros [= <-]; eauto].
Qed.

Lemma item_meta_raises_only rname it e :
  (forall key e, getitem it key = Raises e -> P e) ->
  item_meta rname it = Raises e -> P e.
Proof.
  intros Hget. unfold item_meta.
  destruct (getitem it (lit "category")) eqn:E1; simpl;
    [| intros [= <-]; eauto].
  destruct (getitem it (lit "item_name")) eqn:E2; simpl;
    [| intros [= <-]; eauto].
  destruct (getitem it (lit "product_url")) eqn:E3; simpl;
    [| intros [= <-]; eauto].
  destruct (getitem it (lit "price")) eqn:E4; simpl;
    [| intros [= <-]; eauto].
  destruct (getitem it (lit "special_features")) eqn:E5; simpl;
    [discriminate | intros [= <-]; eauto].
Qed.

Lemma flatten_item_raises_only rname rloc it g e g' :
  item_raises_only P it ->
  flatten_item nfkd py_repr rname rloc it g = (Raises e, g') -> P e.
Proof.
  intros [Hget Hjoin]. unfold flatten_item, bind, lift, modify.
  destruct (txt_raw py_repr rname rloc it) eqn:E1.
  - destruct (item_meta rname it) eqn:E2; [discriminate |].
    intros [= <- _]. eapply item_meta_raises_only; eauto.
  - intros [= <- _]. eapply txt_raw_raises_only; eauto.
Qed.

Lemma flatten_entity_raises_only r g e g' :
  entity_raises_only P r ->
  flatten_entity nfkd py_repr r g = (Raises e, g') -> P e.
Proof.
  intros [Hget Hitems]. unfold flatten_entity, bind, lift.
  fold key_items.
  destruct (getitem r (lit "restaurant_name")) as [rname |] eqn:E1;
    [| intros [= <- _]; eauto].
  destruct (getitem r (lit "location")) as [rloc |] eqn:E2;
    [| intros [= <- _]; eauto].
  destruct (getitem r key_items) as [items |] eqn:E3;
    [| intros [= <- _]; eauto].
  destruct (Hitems items eq_refl) as [Hiter Hits].
  destruct (py_iter items) as [its |] eqn:E4; [| intros [= <- _]; eauto].
  apply for_each_raises_only. intros it s e1 s' Hin.
  apply flatten_item_raises_only. now apply (Hits its).
Qed.

Lemma flatten_raises_only restaurants e g :
  (forall r, In r restaurants -> entity_raises_only P r) ->
  flatten nfkd py_repr restaurants = (Raises e, g) -> P e.
Proof.
  intros H. unfold flatten. apply for_each_raises_only.
  intros r s e1 s' Hin. apply flatten_entity_raises_only. now apply H.
Qed.

End RaisesOnly.

End Flatten.

Section FlattenErrors.

Variable nfkd : str -> str.
Variable py_repr : pyval -> str.

Lemma getitem_key_or_type v key e : getitem v key = Raises e -> key_or_type e.
Proof.
  destruct v; simpl; try (intros [= <-]; now right).
  destruct (lookup key d); [discriminate |]. intros [= <-]. left. eauto.
Qed.

Lemma getitem_dict_KeyError v key e :
  is_dict v = true -> getitem v key = Raises e -> is_KeyError e.
Proof.
  destruct v; try discriminate. simpl. intros _.
  destruct (lookup key d); [discriminate |]. intros [= <-]. red. eauto.
Qed.

Lemma py_iter_TypeError v e : py_iter v = Raises e -> e = TypeError.
Proof. destruct v; simpl; congruence. Qed.

Lemma as_strs_TypeError l e : as_strs l = Raises e -> e = TypeError.
Proof.
  induction l as [| v l IH]; simpl; [discriminate |].
  destruct v; try congruence.
  destruct (as_strs l); simpl; [discriminate |]. intros [= <-]. now apply IH.
Qed.

Lemma str_join_TypeError sep v e : str_join sep v = Raises e -> e = TypeError.
Proof.
  unfold str_join. destruct (py_iter v) as [items |] eqn:E; simpl.
  - destruct (as_strs items) eqn:E'; simpl; [discriminate |].
    intros [= <-]. now apply (as_strs_TypeError items).
  - intros [= <-]. now apply (py_iter_TypeError v).
Qed.

(** Whatever the catalog, the loop raises a [KeyError] or a [TypeError]. *)
Lemma flatten_raises_key_or_type restaurants e g :
  flatten nfkd py_repr restaurants = (Raises e, g) -> key_or_type e.
Proof.
  apply flatten_raises_only. intros r _. split.
  - intros key e1. apply getitem_key_or_type.
  - intros items _. split.
    + intros e1 E. right. now apply (py_iter_TypeError items).
    + intros its it _ _. split.
      * intros key e1. apply getitem_key_or_type.
      * intros feats e1 _ E. right. now apply (str_join_TypeError _ _ _ E).
Qed.

Lemma typed_item_raises_KeyError it :
  typed_item it = true -> item_raises_only is_KeyError it.
Proof.
  unfold typed_item. intros H. apply andb_true_iff in H. destruct H as [Hd Hf].
  split.
  - intros key e. now apply getitem_dict_KeyError.
  - intros feats e Efeats E.
    pose proof (field_ok_getitem _ _ _ _ Hf Efeats) as Hok.
    destruct (str_join_tags [SP] feats Hok) as [tags Etags]. congruence.
Qed.

Lemma typed_entity_raises_KeyError r :
  typed_entity r = true -> entity_raises_only is_KeyError r.
Proof.
  unfold typed_entity. intros H. apply andb_true_iff in H. destruct H as [Hd Hf].
  split.
  - intros key e. now apply getitem_dict_KeyError.
  - intros items Eitems.
    pose proof (field_ok_getitem _ _ _ _ Hf Eitems) as Hok.
    destruct items as [| | | | | its |]; try discriminate. simpl in Hok.
    split; [discriminate |].
    intros its' it [= <-] Hin. apply typed_item_raises_KeyError.
    rewrite forallb_forall in Hok. now apply Hok.
Qed.

(** On a typed catalog the only failure is an absent key. *)
Lemma flatten_typed_raises_KeyError restaurants e g :
  forallb typed_entity restaurants = true ->
  flatten nfkd py_repr restaurants = (Raises e, g) -> is_KeyError e.
Proof.
  intros H. apply flatten_raises_only. intros r Hin.
  apply typed_entity_raises_KeyError. rewrite forallb_forall in H. now apply H.
Qed.

(** C9, as the code has it. When an entry of the corpus lacks a required
    field (entity name, location, item category or item name), flattening
    does not return: it raises a built-in exception, a [KeyError] when the
    corpus is typed as the format says, a [KeyError] or [TypeError]
    otherwise.  The entry is not skipped. *)
Theorem flatten_absent_raises (restaurants : list pyval) (r : pyval) :
  In r restaurants ->
  required_absent r ->
  exists e g,
    flatten nfkd py_repr restaurants = (Raises e, g)
    /\ key_or_type e
    /\ (forallb typed_entity restaurants = true -> is_KeyError e).
Proof.
  intros Hin Habs.
  destruct (flatten_absent nfkd py_repr restaurants r Hin Habs) as (e & g & E).
  exists e, g. split; [exact E |]. split.
  - now apply (flatten_raises_key_or_type restaurants e g).
  - intros Ht. now apply (flatten_typed_raises_KeyError restaurants e g).
Qed.

End FlattenErrors.

Lemma flatten_aligned_witness :
  forallb wf_entity Sample.restaurants = true
  /\ exists g,
       flatten Sample.nfkd Sample.py_repr Sample.restaurants = (Returns tt, g)
       /\ length (texts g) = length (meta g).
Proof.
  split; [reflexivity |].
  destruct (flatten_aligned Sample.nfkd Sample.py_repr Sample.restaurants eq_refl)
    as (g & E & L & _).
  exists g. split; assumption.
Defined.

Lemma flatten_absent_raises_witness :
  In Sample.nameless [Sample.green_fork; Sample.nameless]
  /\ required_absent Sample.nameless
  /\ exists e g,
       flatten Sample.nfkd Sample.py_repr [Sample.green_fork; Sample.nameless]
       = (Raises e, g)
       /\ is_KeyError e.
Proof.
  assert (Hin : In Sample.nameless [Sample.green_fork; Sample.nameless])
    by (right; left; reflexivity).
  assert (Habs : required_absent Sample.nameless) by (left; reflexivity).
  split; [exact Hin |]. split; [exact Habs |].
  destruct (flatten_absent_raises Sample.nfkd Sample.py_repr _ _ Hin Habs)
    as (e & g & E & _ & Hk).
  exists e, g. split; [exact E | apply Hk; reflexivity].
Defined.

(** C9, as stated, fails: the entity without a name makes the loop raise
    [KeyError], and no exception of the class the specification names. *)
Lemma flatten_absent_not_MalformedEntityError :
  required_absent Sample.nameless
  /\ flatten Sample.nfkd Sample.py_repr [Sample.nameless]
     = (Raises (KeyError key_restaurant_name), {| texts := []; meta := [] |})
  /\ ~ (exists e g,
          flatten Sample.nfkd Sample.py_repr [Sample.nameless] = (Raises e, g)
          /\ exn_class e = "MalformedEntityError").
Proof.
  split; [left; reflexivity |]. split; [reflexivity |].
  intros (e & g & E & Hc).
  change (flatten Sample.nfkd Sample.py_repr [Sample.nameless])
    with (@Raises unit (KeyError key_restaurant_name), {| texts := []; meta := [] |}) in E.
  injection E as <- _. discriminate.
Qed.

(** ** Step 7: retrieval *)

Section Ascending.



End Ascending.

Section Retrieval.

Variable nfkd : str -> str.
Variable Array : Type.
Variable encode : list str -> outcome Array.
Variable search : Array -> Z -> outcome (list (list Q) * list (list Z)).

Local Abbreviation the_retrieve := (retrieve nfkd Array encode search).

(** A negative label is not rejected: it counts from the end. *)
Lemma py_index_minus_one {A} (l : list A) (x : A) :
  py_index (l ++ [x]) (-1) = Returns x.
Proof.
  unfold py_index. cbv zeta. rewrite length_app. simpl length.
  change (-1 <? 0)%Z with true. cbv beta iota.
  replace (-1 + Z.of_nat (length l + 1))%Z with (Z.of_nat (length l)) by lia.
  destruct (Z.ltb_spec (Z.of_nat (length l)) 0); [lia |].
  destruct (Z.leb_spec (Z.of_nat (length l + 1)) (Z.of_nat (length l))); [lia |].
  simpl orb. cbv iota. rewrite Nat2Z.id, nth_error_app2, Nat.sub_diag by lia.
  reflexivity.
Qed.

(** The comprehension has one result per label. *)
Lemma retrieve_rows_length g dist row : forall rank rs,
  retrieve_rows g dist rank row = Returns rs -> length rs = length row.
Proof.
  induction row as [| i row IH]; intros rank rs; simpl.
  - now intros [= <-].
  - destruct (py_index (texts g) i); simpl; [| discriminate].
    destruct (py_index (meta g) i); simpl; [| discriminate].
    destruct (py_index dist 0) as [drow |]; simpl; [| discriminate].
    destruct (py_index drow (Z.of_nat rank)); simpl; [| discriminate].
    destruct (retrieve_rows g dist (S rank) row) as [rest |] eqn:E; simpl;
      [| discriminate].
    intros [= <-]. simpl. f_equal. now apply (IH (S rank)).
Qed.

(** X17. Whatever the index answers, a returning [retrieve] has one
    result per label of the row: it drops none and adds none, so the
    number of results is the number of labels the index gave, not a number
    of its own. *)
Lemma retrieve_length g query k q_emb dist idx row rs :
  encode [clean nfkd (Some query)] = Returns q_emb ->
  search q_emb k = Returns (dist, idx) ->
  py_index idx 0 = Returns row ->
  the_retrieve g query k = Returns rs ->
  length rs = length row.
Proof.
  intros Eenc Esearch Erow. unfold retrieve.
  rewrite Eenc. simpl obind. rewrite Esearch. simpl obind. rewrite Erow.
  simpl obind. apply retrieve_rows_length.
Qed.

End Retrieval.

(** ** Step 11: the answer function *)

Section Answering.

Variable nfkd : str -> str.
Variable Array : Type.
Variable encode : list str -> outcome Array.
Variable search : Array -> Z -> outcome (list (list Q) * list (list Z)).
Variables Inputs OutIds : Type.
Variable tokenizer : str -> outcome Inputs.
Variable generate : Inputs -> outcome OutIds.
Variable decode : OutIds -> outcome str.

Local Abbreviation the_retrieve := (retrieve nfkd Array encode search).
Local Abbreviation the_answer :=
  (answer nfkd Array encode search Inputs OutIds tokenizer generate decode).
Local Abbreviation the_generation := (generation Inputs OutIds tokenizer generate decode).

Lemma out_of_scope_far r rest :
  (DISTANCE_THRESHOLD < Result.distance r)%Q -> out_of_scope (r :: rest) = true.
Proof.
  intros H. simpl. destruct (Qle_bool (Result.distance r) DISTANCE_THRESHOLD) eqn:E;
    [| reflexivity].
  apply Qle_bool_iff in E. exfalso. exact (Qlt_not_le _ _ H E).
Qed.

(** With room for one turn, [add] leaves the new turn as the latest. *)
Lemma add_latest conv user assistant :
  (1 <= Conversation.max conv)%Z ->
  exists older,
    Conversation.memory (Conversation.add conv user assistant)
    = older ++ [(user, assistant)].
Proof.
  intros Hmax. unfold Conversation.add.
  destruct (_ >? _)%Z eqn:E; simpl Conversation.memory; [| eauto].
  apply Z.gtb_lt in E. rewrite length_app in E. simpl length in E.
  destruct (Conversation.memory conv) as [| t mem]; [simpl in E; lia |].
  exists mem. reflexivity.
Qed.

(** C1. If the retrieved list is empty, or its first, nearest result is
    farther than the threshold 1, [answer] returns the canned refusal with
    an empty evidence list and calls [add] with the query and the refusal,
    which is then the latest turn of a memory with room for a turn. *)
Theorem answer_refuses g query top_k conv retrieved :
  the_retrieve g query top_k = Returns retrieved ->
  (retrieved = []
   \/ exists r rest, retrieved = r :: rest
                     /\ (DISTANCE_THRESHOLD < Result.distance r)%Q) ->
  the_answer g query top_k conv
  = (Returns (REFUSAL, []), Conversation.add conv query REFUSAL)
  /\ REFUSAL = lit "I do not know. The knowledge base does not contain information relevant to this question."
  /\ DISTANCE_THRESHOLD == 1
  /\ ((1 <= Conversation.max conv)%Z ->
      exists older,
        Conversation.memory (Conversation.add conv query REFUSAL)
        = older ++ [(query, REFUSAL)]).
Proof.
  intros Er Hgate.
  assert (Hout : out_of_scope retrieved = true).
  { destruct Hgate as [-> | (r & rest & -> & Hfar)]; [reflexivity |].
    now apply out_of_scope_far. }
  split; [| split; [reflexivity | split; [reflexivity | apply add_latest]]].
  unfold answer, bind, lift, modify, gets, ret. rewrite Er, Hout. reflexivity.
Qed.

(** A call of [answer] that raises leaves the memory as it was. *)
Lemma answer_raises_memory_unchanged g query top_k conv e conv' :
  the_answer g query top_k conv = (Raises e, conv') -> conv' = conv.
Proof.
  unfold answer, bind, lift, modify, gets, ret.
  destruct (retrieve _ _ _ _ _ _ _) as [retrieved |]; [| congruence].
  destruct (out_of_scope retrieved); [discriminate |].
  destruct (tokenizer _) as [inputs |]; [| congruence].
  destruct (generate inputs) as [out_ids |]; [| congruence].
  destruct (decode out_ids); [discriminate | congruence].
Qed.

(** C7. If the embedding call raises, or the generation (tokenizer,
    generator, decoding) raises once the retrieved chunks have passed the
    gate, [answer] raises the same exception and the memory is the one
    the call started with: no turn is recorded. *)
Theorem answer_provider_error g query top_k conv e :
  (encode [clean nfkd (Some query)] = Raises e
   \/ exists retrieved,
        the_retrieve g query top_k = Returns retrieved
        /\ out_of_scope retrieved = false
        /\ the_generation
             (make_prompt query (map Result.text retrieved)
                          (Conversation.format_history conv))
           = Raises e) ->
  the_answer g query top_k conv = (Raises e, conv).
Proof.
  unfold answer, bind, lift, modify, gets, ret.
  intros [E | (retrieved & Er & Hout & Egen)].
  - unfold retrieve. rewrite E. reflexivity.
  - rewrite Er, Hout. unfold generation in Egen.
    destruct (tokenizer _) as [inputs |]; simpl in Egen; [| congruence].
    destruct (generate inputs) as [out_ids |]; simpl in Egen; [| congruence].
    destruct (decode out_ids); [discriminate | congruence].
Qed.

End Answering.

(** ** The theorems on the sample instance *)

Lemma sample_far :
  exists retrieved,
    Sample.retrieve Sample.chunks (lit "hi") TOP_K = Returns retrieved
    /\ (retrieved = []
        \/ exists r rest, retrieved = r :: rest
                          /\ (DISTANCE_THRESHOLD < Result.distance r)%Q).
Proof.
  eexists. split; [vm_compute; reflexivity |].
  right. eexists _, _. split; [reflexivity |]. vm_compute. reflexivity.
Qed.

Lemma answer_refuses_witness :
  Sample.answer Sample.chunks (lit "hi") TOP_K Sample.chat
  = (Returns (REFUSAL, []), Conversation.add Sample.chat (lit "hi") REFUSAL).
Proof.
  destruct sample_far as (retrieved & Er & Hgate).
  exact (proj1 (answer_refuses Sample.nfkd _ Sample.encode
                  (Sample.search Sample.vectors) _ _ Sample.tokenizer
                  Sample.generate Sample.decode Sample.chunks (lit "hi")
                  TOP_K Sample.chat retrieved Er Hgate)).
Defined.

Lemma answer_provider_error_witness :
  answer Sample.nfkd _ Sample.encode_down (Sample.search Sample.vectors) _ _
         Sample.tokenizer Sample.generate Sample.decode
         Sample.chunks (lit "is the Garden Salad vegetarian?") TOP_K Sample.chat
  = (Raises (External "RuntimeError"), Sample.chat)
  /\ answer Sample.nfkd _ Sample.encode (Sample.search Sample.vectors) _ _
            Sample.tokenizer Sample.generate_down Sample.decode
            Sample.chunks (lit "is the Garden Salad vegetarian?") TOP_K Sample.chat
     = (Raises (External "RuntimeError"), Sample.chat).
Proof.
  split.
  - apply answer_provider_error. left. reflexivity.
  - apply answer_provider_error. right.
    eexists. split; [vm_compute; reflexivity |].
    split; vm_compute; reflexivity.
Defined.

(** * Further properties of the script *)

(** ** Cleaned text as words *)

Section CleanedWords.

Lemma rstrip_fixed_tail c s : rstrip (c :: s) = c :: s -> rstrip s = s.
Proof.
  simpl. destruct (rstrip s) as [| d r] eqn:E.
  - destruct (isspace c); [discriminate |]. now intros [= <-].
  - now intros [= <-].
Qed.

Lemma join_cons_char c t ts : join [SP] ((c :: t) :: ts) = c :: join [SP] (t :: ts).
Proof. destruct ts; reflexivity. Qed.

(** Joining the tokens of single-spaced text that does not end in a
    space gives the text back, up to a leading space. *)
Lemma join_split_spaced s :
  spaced s -> rstrip s = s -> join [SP] (split s) = lstrip s.
Proof.
  induction s as [| c s IH]; [reflexivity |].
  intros Hsp Hr. pose proof (rstrip_fixed_tail c s Hr) as Hr'.
  destruct Hsp as [Hc Hsp']. specialize (IH Hsp' Hr').
  simpl lstrip. destruct (isspace c) eqn:Ec.
  - simpl split. now rewrite Ec.
  - destruct s as [| d s']; [simpl; now rewrite Ec |].
    change (split (c :: d :: s')) with
      (if isspace c then split (d :: s')
       else if isspace d then [c] :: split (d :: s')
            else match split (d :: s') with
                 | t :: ts => (c :: t) :: ts
                 | [] => [[c]]
                 end).
    rewrite Ec. destruct (isspace d) eqn:Ed.
    + destruct Hsp' as [Hd _]. destruct (Hd Ed) as [-> Hnext].
      simpl lstrip in IH. change (isspace SP) with true in IH. cbv iota in IH.
      destruct s' as [| e s'']; [simpl in Hr'; discriminate |].
      simpl lstrip in IH. rewrite Hnext in IH.
      destruct (split (SP :: e :: s'')) as [| t ts]; [discriminate |].
      change (join [SP] ([c] :: t :: ts)) with (c :: SP :: join [SP] (t :: ts)).
      do 2 f_equal. exact IH.
    + simpl lstrip in IH. rewrite Ed in IH.
      destruct (split (d :: s')) as [| t ts]; [discriminate |].
      rewrite join_cons_char. f_equal. exact IH.
Qed.

Lemma plain_range c :
  plain c -> (48 <= c <= 57 \/ c = 95 \/ 97 <= c <= 122)%N.
Proof.
  intros (Hw & _ & Hl). apply is_word_iff in Hw.
  destruct (lower_range c) as [[? E] | [? _]]; lia.
Qed.

(** X1. Whatever the input, cleaned text consists of lower-case ASCII
    letters, digits, underscores and spaces only, and is exactly its
    words joined by single spaces: no space at either end, no two spaces
    in a row. *)
Theorem clean_output_words (nfkd : str -> str) (text : option str) :
  Forall (fun c => c = SP \/ (48 <= c <= 57 \/ c = 95 \/ 97 <= c <= 122)%N)
         (clean nfkd text)
  /\ join [SP] (split (clean nfkd text)) = clean nfkd text.
Proof.
  destruct (clean_normalized nfkd text) as (Hc & Hsp & Hl & Hr). split.
  - eapply Forall_impl; [| exact Hc].
    intros c [-> | Hp]; [now left | right; now apply plain_range].
  - rewrite (join_split_spaced _ Hsp Hr). exact Hl.
Qed.

End CleanedWords.

(** ** The cleaner on ASCII text *)

Section CleanerAscii.

Variable nfkd : str -> str.
Hypothesis nfkd_ascii :
  forall s, Forall (fun c => is_ascii c = true) s -> nfkd s = s.

Lemma clean_ascii (s : str) :
  Forall (fun c => is_ascii c = true) s ->
  clean nfkd (Some s) = strip (collapse_ws (punct_sub (map lower s))).
Proof.
  intros Ha. destruct s as [| c t]; [reflexivity |].
  unfold clean. now rewrite (nfkd_ascii _ Ha), (filter_all _ _ Ha).
Qed.

(** X2. On ASCII text the cleaner ignores letter case: two texts that
    agree once lower-cased clean to the same text. *)
Theorem clean_case_insensitive (s1 s2 : str) :
  Forall (fun c => is_ascii c = true) s1 ->
  Forall (fun c => is_ascii c = true) s2 ->
  map lower s1 = map lower s2 ->
  clean nfkd (Some s1) = clean nfkd (Some s2).
Proof.
  intros H1 H2 E. now rewrite (clean_ascii s1 H1), (clean_ascii s2 H2), E.
Qed.

Lemma lstrip_all_space s :
  Forall (fun c => isspace c = true) s -> lstrip s = [].
Proof. induction 1 as [| c s Hc Hs IH]; simpl; [| rewrite Hc]; trivial. Qed.

Lemma collapse_ws_all_space s :
  Forall (fun c => isspace c = true) s ->
  Forall (fun c => isspace c = true) (collapse_ws s).
Proof.
  induction 1 as [| c s Hc Hs IH]; simpl; [constructor |].
  rewrite Hc. destruct s as [| d s']; [now repeat constructor |].
  destruct (isspace d); [exact IH |]. now constructor.
Qed.

Lemma punct_sub_no_word s :
  Forall (fun c => is_word c = false) s ->
  Forall (fun c => isspace c = true) (punct_sub (map lower s)).
Proof.
  induction 1 as [| c s Hc Hs IH]; simpl; constructor; [| exact IH].
  assert (E : lower c = c).
  { destruct (lower_range c) as [[Hr _] | [_ E]]; [| exact E].
    assert (Hw : is_word c = true) by (apply is_word_iff; lia). congruence. }
  rewrite E, Hc. simpl. destruct (isspace c) eqn:Es; [exact Es | reflexivity].
Qed.

(** X3. ASCII text without a letter, digit or underscore (punctuation and
    whitespace only) cleans to the empty string. *)
Theorem clean_no_word_char (s : str) :
  Forall (fun c => is_ascii c = true) s ->
  Forall (fun c => is_word c = false) s ->
  clean nfkd (Some s) = [].
Proof.
  intros Ha Hw. rewrite (clean_ascii s Ha). unfold strip.
  now rewrite (lstrip_all_space _ (collapse_ws_all_space _ (punct_sub_no_word s Hw))).
Qed.

End CleanerAscii.

Lemma clean_case_insensitive_witness :
  Forall (fun c => is_ascii c = true) (lit "Is the BIG Mac vegan?")
  /\ Forall (fun c => is_ascii c = true) (lit "is the Big mac Vegan?")
  /\ map lower (lit "Is the BIG Mac vegan?") = map lower (lit "is the Big mac Vegan?")
  /\ clean Sample.nfkd (Some (lit "Is the BIG Mac vegan?"))
     = clean Sample.nfkd (Some (lit "is the Big mac Vegan?")).
Proof.
  assert (H1 : Forall (fun c => is_ascii c = true) (lit "Is the BIG Mac vegan?"))
    by (repeat constructor).
  assert (H2 : Forall (fun c => is_ascii c = true) (lit "is the Big mac Vegan?"))
    by (repeat constructor).
  split; [exact H1 |]. split; [exact H2 |]. split; [reflexivity |].
  exact (clean_case_insensitive Sample.nfkd sample_nfkd_ascii _ _ H1 H2 eq_refl).
Defined.

Lemma clean_no_word_char_witness :
  Forall (fun c => is_ascii c = true) (lit " ?! ... ")
  /\ Forall (fun c => is_word c = false) (lit " ?! ... ")
  /\ clean Sample.nfkd (Some (lit " ?! ... ")) = [].
Proof.
  assert (H1 : Forall (fun c => is_ascii c = true) (lit " ?! ... "))
    by (repeat constructor).
  assert (H2 : Forall (fun c => is_word c = false) (lit " ?! ... "))
    by (repeat constructor).
  split; [exact H1 |]. split; [exact H2 |].
  exact (clean_no_word_char Sample.nfkd sample_nfkd_ascii _ H1 H2).
Defined.

(** ** More on the duplicate-token collapse *)

Section DedupeMore.

Lemma keep_no_adjacent toks : forall p,
  no_adjacent_repeat (p :: keep_if_differs (Some p) toks) = true.
Proof.
  induction toks as [| tok toks IH]; intros p; [reflexivity |].
  simpl keep_if_differs. destruct (str_eqb tok p) eqn:E; [apply IH |].
  change (negb (str_eqb p tok)
          && no_adjacent_repeat (tok :: keep_if_differs (Some tok) toks) = true).
  rewrite IH, andb_true_r.
  destruct (str_eqb p tok) eqn:E'; [| reflexivity].
  apply str_eqb_eq in E'. subst. rewrite str_eqb_refl in E. discriminate.
Qed.

Lemma keep_none_no_adjacent toks :
  no_adjacent_repeat (keep_if_differs None toks) = true.
Proof. destruct toks as [| t toks]; [reflexivity | apply keep_no_adjacent]. Qed.

(** X4. The collapse is idempotent, and its result never has two equal
    tokens next to each other. *)
Theorem dedupe_tokens_idempotent (text : str) :
  dedupe_tokens (dedupe_tokens text) = dedupe_tokens text
  /\ no_adjacent_repeat (split (dedupe_tokens text)) = true.
Proof.
  split.
  - rewrite (dedupe_tokens_keep (dedupe_tokens text)), split_dedupe_tokens.
    rewrite (keep_none_no_repeat _ (keep_none_no_adjacent (split text))).
    symmetry. apply dedupe_tokens_keep.
  - rewrite split_dedupe_tokens. apply keep_none_no_adjacent.
Qed.

Lemma split_nil_iff s :
  split s = [] <-> Forall (fun c => isspace c = true) s.
Proof.
  induction s as [| c s IH]; [split; [constructor | reflexivity] |].
  simpl. destruct (isspace c) eqn:Ec.
  - rewrite IH. split; [now constructor | now inversion 1].
  - split.
    + destruct s as [| d s']; [discriminate |].
      destruct (isspace d); [discriminate |].
      destruct (split (d :: s')); discriminate.
    + inversion 1; congruence.
Qed.

(** X5. The collapse gives the empty string exactly for a text that is
    empty or all whitespace. *)
Theorem dedupe_tokens_empty_iff (text : str) :
  dedupe_tokens text = [] <-> Forall (fun c => isspace c = true) text.
Proof.
  rewrite <- split_nil_iff, dedupe_tokens_keep. split.
  - pose proof (split_tokens text) as Ht.
    destruct (split text) as [| t toks]; [reflexivity |].
    inversion Ht as [| ? ? [Hne _] _]; subst. simpl keep_if_differs.
    destruct t as [| c t]; [congruence |]. rewrite join_cons_char. discriminate.
  - now intros ->.
Qed.

End DedupeMore.

(** ** More on the conversation memory *)

Section MemoryMore.

Import Conversation.

(** X6. [add] keeps a memory within its capacity: if the memory holds at
    most [max] turns before the call, it does after, and the capacity is
    not changed. *)
Theorem add_keeps_bound (conv : Conversation.t) (user assistant : str) :
  (Z.of_nat (length (memory conv)) <= max conv)%Z ->
  (Z.of_nat (length (memory (add conv user assistant))) <= max conv)%Z
  /\ max (add conv user assistant) = max conv.
Proof.
  intros H. split; [| apply add_max].
  unfold add. destruct (_ >? _)%Z eqn:E; simpl memory.
  - rewrite length_tl, length_app. simpl length. lia.
  - rewrite Z.gtb_ltb in E. apply Z.ltb_ge in E. exact E.
Qed.

Lemma add_keeps_bound_witness :
  (Z.of_nat (length (memory (add_all (init 2) [(lit "q1", lit "a1"); (lit "q2", lit "a2")])))
   <= 2)%Z
  /\ (Z.of_nat (length (memory (add (add_all (init 2) [(lit "q1", lit "a1"); (lit "q2", lit "a2")])
                                    (lit "q3") (lit "a3"))))
      <= 2)%Z.
Proof.
  assert (H : (Z.of_nat (length (memory (add_all (init 2)
                 [(lit "q1", lit "a1"); (lit "q2", lit "a2")]))) <= 2)%Z)
    by (simpl; lia).
  split; [exact H |].
  exact (proj1 (add_keeps_bound
                  (add_all (init 2) [(lit "q1", lit "a1"); (lit "q2", lit "a2")])
                  (lit "q3") (lit "a3") H)).
Defined.

(** X7. [add] appends the turn and then drops at most one turn, the
    oldest: below capacity the memory grows by one, at or above capacity
    its length stays what it was, so a memory above its capacity is not
    brought back to it. *)
Theorem add_drops_at_most_one (conv : Conversation.t) (user assistant : str) :
  (exists dropped,
      memory conv ++ [(user, assistant)]
      = dropped ++ memory (add conv user assistant)
      /\ length dropped <= 1)
  /\ length (memory (add conv user assistant))
     = if (Z.of_nat (length (memory conv)) <? max conv)%Z
       then S (length (memory conv))
       else length (memory conv).
Proof.
  unfold add. rewrite length_app. simpl length.
  destruct (_ >? _)%Z eqn:E; simpl memory.
  - apply Z.gtb_lt in E.
    destruct (Z.ltb_spec (Z.of_nat (length (memory conv))) (max conv)); [lia |].
    split.
    + destruct (memory conv) as [| t mem]; simpl.
      * exists [(user, assistant)]. split; [reflexivity | simpl; lia].
      * exists [t]. split; [reflexivity | simpl; lia].
    + rewrite length_tl, length_app. simpl. lia.
  - rewrite Z.gtb_ltb in E. apply Z.ltb_ge in E.
    destruct (Z.ltb_spec (Z.of_nat (length (memory conv))) (max conv)); [| lia].
    split.
    + exists []. split; [reflexivity | simpl; lia].
    + rewrite length_app. simpl. lia.
Qed.

(** X8. A memory created with capacity zero or negative never holds a
    turn: after any calls of [add] it is empty and the history text is
    the empty string. *)
Theorem no_capacity_no_memory (N : Z) (turns : list (str * str)) :
  (N <= 0)%Z ->
  memory (add_all (init N) turns) = []
  /\ format_history (add_all (init N) turns) = [].
Proof.
  intros HN.
  assert (H : memory (add_all (init N) turns) = []
              /\ max (add_all (init N) turns) = N).
  { induction turns as [| ua turns [IHm IHx]] using rev_ind; [now split |].
    rewrite add_all_snoc. split; [| now rewrite add_max].
    unfold add. rewrite IHm, IHx. simpl app. simpl length.
    change (Z.of_nat 1) with 1%Z.
    destruct (Z.gtb_spec 1 N); [reflexivity | lia]. }
  destruct H as [H _]. split; [exact H |].
  unfold format_history. now rewrite H.
Qed.

Lemma no_capacity_no_memory_witness :
  (0 <= 0)%Z
  /\ memory (add_all (init 0) [(lit "q1", lit "a1"); (lit "q2", lit "a2")]) = [].
Proof.
  split; [lia |].
  exact (proj1 (no_capacity_no_memory 0
                  [(lit "q1", lit "a1"); (lit "q2", lit "a2")] (Z.le_refl 0))).
Defined.

Lemma join_lines_blocks (f : str * str -> str) m :
  m <> [] ->
  join [NL] (map f m) ++ [NL] = flat_map (fun ua => f ua ++ [NL]) m.
Proof.
  induction m as [| x m IH]; [congruence |]. intros _.
  destruct m as [| y r].
  - simpl. now rewrite app_nil_r.
  - change (join [NL] (map f (x :: y :: r)))
      with (f x ++ [NL] ++ join [NL] (map f (y :: r))).
    change (flat_map (fun ua => f ua ++ [NL]) (x :: y :: r))
      with ((f x ++ [NL]) ++ flat_map (fun ua => f ua ++ [NL]) (y :: r)).
    rewrite <- IH by discriminate. now rewrite <- !app_assoc.
Qed.

(** X9. The history text is the concatenation, oldest turn first, of one
    block per stored turn, a User line and an Assistant line each ended
    by a newline; so the text of a longer memory extends, turn by turn,
    the text of its older part. *)
Theorem format_history_blocks (conv : Conversation.t) :
  format_history conv
  = flat_map (fun ua => lit "User: " ++ fst ua ++ [NL]
                        ++ lit "Assistant: " ++ snd ua ++ [NL])
             (memory conv).
Proof.
  unfold format_history. destruct (memory conv) as [| t mem] eqn:E; [reflexivity |].
  rewrite join_lines_blocks by discriminate.
  apply flat_map_ext. intros ua. now rewrite <- !app_assoc.
Qed.

End MemoryMore.

(** ** More on the answer function *)

Section AnsweringMore.

Variable nfkd : str -> str.
Variable Array : Type.
Variable encode : list str -> outcome Array.
Variable search : Array -> Z -> outcome (list (list Q) * list (list Z)).
Variables Inputs OutIds : Type.
Variable tokenizer : str -> outcome Inputs.
Variable generate : Inputs -> outcome OutIds.
Variable decode : OutIds -> outcome str.

Local Abbreviation the_retrieve := (retrieve nfkd Array encode search).
Local Abbreviation the_answer :=
  (answer nfkd Array encode search Inputs OutIds tokenizer generate decode).
Local Abbreviation the_generation := (generation Inputs OutIds tokenizer generate decode).

Lemma out_of_scope_near r rest :
  (Result.distance r <= DISTANCE_THRESHOLD)%Q -> out_of_scope (r :: rest) = false.
Proof.
  intros H. simpl. apply Qle_bool_iff in H. now rewrite H.
Qed.

(** X10. When the nearest retrieved result is at distance at most the
    threshold, the threshold itself included, [answer] prompts the
    generator with the query, the texts of all retrieved results and the
    history as it is before the call; it returns the generated text with
    adjacent duplicate tokens collapsed and all retrieved results as
    evidence, whatever the distances after the first, and records the
    query with the collapsed text. *)
Theorem answer_generates g query top_k conv r rest decoded :
  the_retrieve g query top_k = Returns (r :: rest) ->
  (Result.distance r <= DISTANCE_THRESHOLD)%Q ->
  the_generation
    (make_prompt query (map Result.text (r :: rest))
                 (Conversation.format_history conv))
  = Returns decoded ->
  the_answer g query top_k conv
  = (Returns (dedupe_tokens decoded, r :: rest),
     Conversation.add conv query (dedupe_tokens decoded)).
Proof.
  intros Er Hnear Egen.
  unfold answer, bind, lift, modify, gets, ret.
  rewrite Er, (out_of_scope_near r rest Hnear).
  unfold generation in Egen.
  destruct (tokenizer _) as [inputs |]; simpl in Egen; [| discriminate].
  destruct (generate inputs) as [out_ids |]; simpl in Egen; [| discriminate].
  now rewrite Egen.
Qed.

(** X11. A call of [answer] that returns has recorded exactly one turn,
    the query with the returned text.  Its evidence list is empty exactly
    when the relevance check refused, in which case the text is the canned
    refusal; otherwise the evidence is the whole non-empty list
    [retrieve] returned. *)
Theorem answer_returns_one_turn g query top_k conv response evidence conv' :
  the_answer g query top_k conv = (Returns (response, evidence), conv') ->
  conv' = Conversation.add conv query response
  /\ (response = REFUSAL /\ evidence = []
      \/ evidence <> []
         /\ the_retrieve g query top_k = Returns evidence
         /\ out_of_scope evidence = false).
Proof.
  unfold answer, bind, lift, modify, gets, ret.
  destruct (retrieve _ _ _ _ _ _ _) as [retrieved |]; [| discriminate].
  destruct (out_of_scope retrieved) eqn:Hout.
  - intros [= <- <- <-]. split; [reflexivity | now left].
  - destruct (tokenizer _) as [inputs |]; [| discriminate].
    destruct (generate inputs) as [out_ids |]; [| discriminate].
    destruct (decode out_ids); [| discriminate].
    intros [= <- <- <-]. split; [reflexivity |]. right.
    split; [| split; trivial]. intros ->. discriminate.
Qed.

(** X12. A call of [answer] that raises, whatever raised (the embedding
    model, the index, a label without chunk, the generator), leaves the
    memory as it was. *)
Theorem answer_raises_keeps_memory g query top_k conv e conv' :
  answer nfkd Array encode search Inputs OutIds tokenizer generate decode
         g query top_k conv
  = (Raises e, conv') ->
  conv' = conv.
Proof.
  unfold answer, bind, lift, modify, gets, ret.
  destruct (retrieve _ _ _ _ _ _ _) as [retrieved |]; [| now intros [= _ <-]].
  destruct (out_of_scope retrieved); [discriminate |].
  destruct (tokenizer _) as [inputs |]; [| now intros [= _ <-]].
  destruct (generate inputs) as [out_ids |]; [| now intros [= _ <-]].
  destruct (decode out_ids); [discriminate | now intros [= _ <-]].
Qed.

(** X13. [answer] keeps the memory within its capacity whether it
    returns or raises: a memory that holds at most [max] turns before the
    call does after it, with the same capacity. *)
Theorem answer_keeps_bound g query top_k conv outcome conv' :
  (Z.of_nat (length (Conversation.memory conv)) <= Conversation.max conv)%Z ->
  the_answer g query top_k conv = (outcome, conv') ->
  (Z.of_nat (length (Conversation.memory conv')) <= Conversation.max conv')%Z
  /\ Conversation.max conv' = Conversation.max conv.
Proof.
  intros Hb.
  assert (Hadd : forall text,
             (Z.of_nat (length (Conversation.memory (Conversation.add conv query text)))
              <= Conversation.max (Conversation.add conv query text))%Z
             /\ Conversation.max (Conversation.add conv query text)
                = Conversation.max conv).
  { intros text. unfold Conversation.add.
    destruct (_ >? _)%Z eqn:E; simpl.
    - split; [| reflexivity]. rewrite length_tl, length_app. simpl length. lia.
    - split; [| reflexivity]. rewrite Z.gtb_ltb in E. now apply Z.ltb_ge in E. }
  unfold answer, bind, lift, modify, gets, ret.
  destruct (retrieve _ _ _ _ _ _ _) as [retrieved |];
    [| intros [= _ <-]; now split].
  destruct (out_of_scope retrieved); [intros [= _ <-]; apply Hadd |].
  destruct (tokenizer _) as [inputs |]; [| intros [= _ <-]; now split].
  destruct (generate inputs) as [out_ids |]; [| intros [= _ <-]; now split].
  destruct (decode out_ids); intros [= _ <-]; [apply Hadd | now split].
Qed.

End AnsweringMore.

Lemma sample_near :
  exists r rest,
    Sample.retrieve Sample.chunks (lit "is the Garden Salad vegetarian?") TOP_K
    = Returns (r :: rest)
    /\ (Result.distance r <= DISTANCE_THRESHOLD)%Q
    /\ generation str str Sample.tokenizer Sample.generate Sample.decode
         (make_prompt (lit "is the Garden Salad vegetarian?")
                      (map Result.text (r :: rest))
                      (Conversation.format_history Sample.chat))
       = Returns (lit "yes yes  the the salad is is vegan").
Proof.
  eexists _, _. split; [vm_compute; reflexivity |].
  split; [vm_compute; discriminate | reflexivity].
Qed.

Lemma answer_generates_witness :
  exists evidence,
    Sample.answer Sample.chunks (lit "is the Garden Salad vegetarian?") TOP_K
                  Sample.chat
    = (Returns (lit "yes the salad is vegan", evidence),
       Conversation.add Sample.chat (lit "is the Garden Salad vegetarian?")
                        (lit "yes the salad is vegan")).
Proof.
  destruct sample_near as (r & rest & Er & Hnear & Egen).
  exists (r :: rest).
  exact (answer_generates Sample.nfkd _ Sample.encode
           (Sample.search Sample.vectors) _ _ Sample.tokenizer Sample.generate
           Sample.decode Sample.chunks _ TOP_K Sample.chat r rest _
           Er Hnear Egen).
Defined.

Lemma sample_answered :
  exists evidence,
    Sample.answer Sample.chunks (lit "is the Garden Salad vegetarian?") TOP_K
                  Sample.chat
    = (Returns (lit "yes the salad is vegan", evidence),
       Conversation.add Sample.chat (lit "is the Garden Salad vegetarian?")
                        (lit "yes the salad is vegan")).
Proof. eexists. vm_compute. reflexivity. Qed.

Lemma answer_returns_one_turn_witness :
  exists evidence conv',
    Sample.answer Sample.chunks (lit "is the Garden Salad vegetarian?") TOP_K
                  Sample.chat
    = (Returns (lit "yes the salad is vegan", evidence), conv')
    /\ conv' = Conversation.add Sample.chat (lit "is the Garden Salad vegetarian?")
                                (lit "yes the salad is vegan")
    /\ evidence <> [].
Proof.
  destruct sample_answered as (evidence & E).
  exists evidence, (Conversation.add Sample.chat (lit "is the Garden Salad vegetarian?")
                                    (lit "yes the salad is vegan")).
  split; [exact E |].
  destruct (answer_returns_one_turn Sample.nfkd _ Sample.encode
              (Sample.search Sample.vectors) _ _ Sample.tokenizer
              Sample.generate Sample.decode Sample.chunks _ TOP_K Sample.chat
              _ _ _ E) as [Hc [[Hr _] | [Hne _]]].
  - discriminate Hr.
  - split; [reflexivity | exact Hne].
Defined.

Lemma answer_keeps_bound_witness :
  (Z.of_nat (length (Conversation.memory Sample.chat))
   <= Conversation.max Sample.chat)%Z
  /\ forall outcome conv',
       Sample.answer Sample.chunks (lit "hi") TOP_K Sample.chat = (outcome, conv') ->
       (Z.of_nat (length (Conversation.memory conv')) <= Conversation.max conv')%Z.
Proof.
  assert (H : (Z.of_nat (length (Conversation.memory Sample.chat))
               <= Conversation.max Sample.chat)%Z) by (vm_compute; discriminate).
  split; [exact H |]. intros outcome conv' E.
  exact (proj1 (answer_keeps_bound Sample.nfkd _ Sample.encode
                  (Sample.search Sample.vectors) _ _ Sample.tokenizer
                  Sample.generate Sample.decode Sample.chunks _ TOP_K
                  Sample.chat outcome conv' H E)).
Defined.

Lemma answer_raises_keeps_memory_witness :
  exists conv',
    Sample.answer Sample.chunks (lit "hi") 0 Sample.chat
    = (Raises (External "InputError"), conv')
    /\ conv' = Sample.chat.
Proof.
  assert (E : exists conv',
             Sample.answer Sample.chunks (lit "hi") 0 Sample.chat
             = (Raises (External "InputError"), conv'))
    by (eexists; vm_compute; reflexivity).
  destruct E as (conv' & E). exists conv'. split; [exact E |].
  exact (answer_raises_keeps_memory Sample.nfkd _ Sample.encode
           (Sample.search Sample.vectors) _ _ Sample.tokenizer Sample.generate
           Sample.decode Sample.chunks (lit "hi") 0 Sample.chat
           (External "InputError") conv' E).
Defined.

(** ** More on retrieval *)

Section RetrievalMore.

Variable nfkd : str -> str.
Variable py_repr : pyval -> str.
Variable Array : Type.
Variable encode : list str -> outcome Array.
Variable search : Array -> Z -> outcome (list (list Q) * list (list Z)).

Local Abbreviation the_retrieve := (retrieve nfkd Array encode search).

(** The position a Python index stands for. *)
Lemma py_index_position {A} (l : list A) i x :
  py_index l i = Returns x ->
  nth_error l (Z.to_nat (if (i <? 0)%Z then i + Z.of_nat (length l) else i)) = Some x.
Proof.
  unfold py_index. cbv zeta.
  destruct (_ || _); [discriminate |].
  destruct (nth_error l _) as [y |]; [| discriminate]. now intros [= <-].
Qed.

Lemma py_index_raises {A} (l : list A) i e :
  py_index l i = Raises e -> e = IndexError.
Proof.
  unfold py_index. cbv zeta.
  destruct (_ || _); [now intros [= <-] |].
  destruct (nth_error l _); [discriminate | now intros [= <-]].
Qed.

Lemma py_index_out_of_range {A} (l : list A) i :
  (Z.of_nat (length l) <= i \/ i < - Z.of_nat (length l))%Z ->
  py_index l i = Raises IndexError.
Proof.
  intros H. unfold py_index. cbv zeta.
  destruct (Z.ltb_spec i 0).
  - destruct (Z.ltb_spec (i + Z.of_nat (length l)) 0); [reflexivity | lia].
  - destruct (Z.ltb_spec i 0); [lia |].
    destruct (Z.leb_spec (Z.of_nat (length l)) i); [reflexivity | lia].
Qed.

Lemma retrieve_rows_raises g dist row : forall rank e,
  retrieve_rows g dist rank row = Raises e -> e = IndexError.
Proof.
  induction row as [| i row IH]; intros rank e; simpl; [discriminate |].
  destruct (py_index (texts g) i) eqn:E1; simpl;
    [| intros [= <-]; now apply (py_index_raises _ _ _ E1)].
  destruct (py_index (meta g) i) eqn:E2; simpl;
    [| intros [= <-]; now apply (py_index_raises _ _ _ E2)].
  destruct (py_index dist 0) as [drow |] eqn:E3; simpl;
    [| intros [= <-]; now apply (py_index_raises _ _ _ E3)].
  destruct (py_index drow (Z.of_nat rank)) eqn:E4; simpl;
    [| intros [= <-]; now apply (py_index_raises _ _ _ E4)].
  destruct (retrieve_rows g dist (S rank) row) eqn:E5; simpl; [discriminate |].
  intros [= <-]. now apply (IH (S rank)).
Qed.

Lemma retrieve_rows_bad_label g dist row i :
  In i row ->
  py_index (texts g) i = Raises IndexError ->
  forall rank, retrieve_rows g dist rank row = Raises IndexError.
Proof.
  intros Hin Hbad. induction row as [| j row IH]; [contradiction |].
  intros rank.
  destruct (retrieve_rows g dist rank (j :: row)) as [rs |] eqn:E.
  - exfalso. simpl in E.
    destruct (py_index (texts g) j) eqn:E1; simpl in E; [| discriminate].
    destruct (py_index (meta g) j); simpl in E; [| discriminate].
    destruct (py_index dist 0) as [drow |]; simpl in E; [| discriminate].
    destruct (py_index drow (Z.of_nat rank)); simpl in E; [| discriminate].
    destruct Hin as [-> | Hin]; [congruence |].
    rewrite (IH Hin (S rank)) in E. discriminate.
  - f_equal. now apply (retrieve_rows_raises g dist (j :: row) rank).
Qed.

(** X14. A label that names no chunk, at or past the number of chunks or
    below minus that number, as a stale index gives, makes [retrieve]
    raise [IndexError]; no partial result list is returned. *)
Theorem retrieve_label_out_of_range g query k q_emb dist idx row i :
  encode [clean nfkd (Some query)] = Returns q_emb ->
  search q_emb k = Returns (dist, idx) ->
  py_index idx 0 = Returns row ->
  In i row ->
  (Z.of_nat (length (texts g)) <= i \/ i < - Z.of_nat (length (texts g)))%Z ->
  the_retrieve g query k = Raises IndexError.
Proof.
  intros Eenc Esearch Erow Hin Hout. unfold retrieve.
  rewrite Eenc. simpl obind. rewrite Esearch. simpl obind. rewrite Erow.
  simpl obind. apply (retrieve_rows_bad_label g dist row i Hin).
  now apply py_index_out_of_range.
Qed.

Lemma py_index_rank {A} (l : list A) (rank : nat) x :
  py_index l (Z.of_nat rank) = Returns x -> nth_error l rank = Some x.
Proof.
  intros H. apply py_index_position in H.
  destruct (Z.ltb_spec (Z.of_nat rank) 0); [lia |]. now rewrite Nat2Z.id in H.
Qed.

Lemma retrieve_rows_joined g dist row : forall rank rs,
  retrieve_rows g dist rank row = Returns rs ->
  Forall2 (fun i r => py_index (texts g) i = Returns (Result.text r)
                      /\ py_index (meta g) i = Returns (Result.meta r))
          row rs
  /\ forall j r, nth_error rs j = Some r ->
       exists drow, py_index dist 0 = Returns drow
                    /\ nth_error drow (rank + j) = Some (Result.distance r).
Proof.
  induction row as [| i row IH]; intros rank rs; simpl.
  - intros [= <-]. split; [constructor |]. intros [| j] r; discriminate.
  - destruct (py_index (texts g) i) as [t |] eqn:E1; simpl; [| discriminate].
    destruct (py_index (meta g) i) as [m |] eqn:E2; simpl; [| discriminate].
    destruct (py_index dist 0) as [drow |] eqn:E3; simpl; [| discriminate].
    destruct (py_index drow (Z.of_nat rank)) as [d |] eqn:E4; simpl;
      [| discriminate].
    destruct (retrieve_rows g dist (S rank) row) as [rest |] eqn:E5; simpl;
      [| discriminate].
    intros [= <-]. destruct (IH (S rank) rest E5) as [Hj Hd]. split.
    + constructor; [simpl; auto | exact Hj].
    + intros [| j] r; simpl.
      * intros [= <-]. exists drow. split; [reflexivity |]. simpl.
        rewrite Nat.add_0_r. now apply py_index_rank.
      * intros Hr. destruct (Hd j r Hr) as (drow' & E & Hn).
        exists drow'. split; [exact E |].
        now replace (rank + S j) with (S rank + j) by lia.
Qed.

(** X15. In what [retrieve] returns, the result at rank j carries the
    chunk text and the metadata found under the same label, the j-th of
    the label row, and the j-th distance of the distance row. *)
Theorem retrieve_joins_by_label g query k q_emb dist idx row rs :
  encode [clean nfkd (Some query)] = Returns q_emb ->
  search q_emb k = Returns (dist, idx) ->
  py_index idx 0 = Returns row ->
  the_retrieve g query k = Returns rs ->
  Forall2 (fun i r => py_index (texts g) i = Returns (Result.text r)
                      /\ py_index (meta g) i = Returns (Result.meta r))
          row rs
  /\ forall j r, nth_error rs j = Some r ->
       exists drow, py_index dist 0 = Returns drow
                    /\ nth_error drow j = Some (Result.distance r).
Proof.
  intros Eenc Esearch Erow. unfold retrieve.
  rewrite Eenc. simpl obind. rewrite Esearch. simpl obind. rewrite Erow.
  simpl obind. intros E. exact (retrieve_rows_joined g dist row 0 rs E).
Qed.

Lemma Forall2_nth_error_r {A B} (R : A -> B -> Prop) l1 l2 :
  Forall2 R l1 l2 ->
  forall n b, nth_error l2 n = Some b ->
              exists a, nth_error l1 n = Some a /\ R a b.
Proof.
  induction 1 as [| x y l1 l2 Hxy H IH]; intros [| n] b; simpl; try discriminate.
  - intros [= <-]. eauto.
  - apply IH.
Qed.

Lemma retrieve_rows_labels g dist row : forall rank rs r,
  retrieve_rows g dist rank row = Returns rs ->
  In r rs ->
  exists i, py_index (texts g) i = Returns (Result.text r)
            /\ py_index (meta g) i = Returns (Result.meta r).
Proof.
  intros rank rs r E Hin.
  destruct (retrieve_rows_joined g dist row rank rs E) as [Hj _].
  clear E. induction Hj as [| i r0 row rs H Hj IH]; [contradiction |].
  destruct Hin as [-> | Hin]; [eauto | now apply IH].
Qed.

(** X16. Retrieval over the chunks of a well-formed catalog never mixes
    items: in every result the text and the metadata come from one and
    the same item of the catalog, whatever labels the index returned. *)
Theorem retrieve_results_aligned (restaurants : list pyval) query k rs res :
  forallb wf_entity restaurants = true ->
  the_retrieve (snd (flatten nfkd py_repr restaurants)) query k = Returns rs ->
  In res rs ->
  exists r it,
    In (r, it) (leaves restaurants)
    /\ chunk_from nfkd py_repr r it (Result.text res)
    /\ meta_from r it (Result.meta res).
Proof.
  intros Hwf.
  destruct (flatten_entities_wf nfkd py_repr restaurants Hwf
              {| texts := []; meta := [] |}) as (txts & ms & E & Ht & Hm).
  unfold flatten. rewrite E. simpl snd. simpl app.
  set (g := {| texts := txts; meta := ms |}).
  unfold retrieve.
  destruct (encode _) as [q_emb |]; simpl; [| discriminate].
  destruct (search q_emb k) as [[dist idx] |]; simpl; [| discriminate].
  destruct (py_index idx 0) as [row |]; simpl; [| discriminate].
  intros Er Hin.
  destruct (retrieve_rows_labels g dist row 0 rs res Er Hin) as (i & Et & Em).
  apply py_index_position in Et. apply py_index_position in Em.
  simpl texts in Et. simpl meta in Em.
  rewrite <- (Forall2_length Ht) in Et. rewrite <- (Forall2_length Hm) in Em.
  destruct (Forall2_nth_error_r _ _ _ Ht _ _ Et) as ([r it] & Hleaf & Hchunk).
  destruct (Forall2_nth_error_r _ _ _ Hm _ _ Em) as ([r' it'] & Hleaf' & Hmeta).
  rewrite Hleaf in Hleaf'. injection Hleaf' as <- <-.
  exists r, it. split; [| split; assumption].
  now apply nth_error_In in Hleaf.
Qed.

End RetrievalMore.

Lemma sample_row :
  exists q_emb dist idx row rs,
    Sample.encode [clean Sample.nfkd (Some (lit "is the Garden Salad vegetarian?"))]
    = Returns q_emb
    /\ Sample.search Sample.vectors q_emb 5 = Returns (dist, idx)
    /\ py_index idx 0 = Returns row
    /\ Sample.retrieve Sample.chunks (lit "is the Garden Salad vegetarian?") 5
       = Returns rs.
Proof.
  eexists _, _, _, _, _. split; [reflexivity |].
  split; [vm_compute; reflexivity |]. split; [reflexivity |].
  vm_compute. reflexivity.
Qed.

Lemma retrieve_length_witness :
  exists (row : list Z) rs,
    Sample.retrieve Sample.chunks (lit "is the Garden Salad vegetarian?") 5
    = Returns rs
    /\ length rs = length row.
Proof.
  destruct sample_row as (q_emb & dist & idx & row & rs & Eenc & Es & Erow & Er).
  exists row, rs. split; [exact Er |].
  exact (retrieve_length Sample.nfkd _ Sample.encode (Sample.search Sample.vectors)
           Sample.chunks (lit "is the Garden Salad vegetarian?") 5
           q_emb dist idx row rs Eenc Es Erow Er).
Defined.

Lemma retrieve_joins_by_label_witness :
  exists row rs,
    Sample.retrieve Sample.chunks (lit "is the Garden Salad vegetarian?") 5
    = Returns rs
    /\ Forall2 (fun i r =>
                  py_index (texts Sample.chunks) i = Returns (Result.text r)
                  /\ py_index (meta Sample.chunks) i = Returns (Result.meta r))
               row rs.
Proof.
  destruct sample_row as (q_emb & dist & idx & row & rs & Eenc & Es & Erow & Er).
  exists row, rs. split; [exact Er |].
  exact (proj1 (retrieve_joins_by_label Sample.nfkd _ Sample.encode
                  (Sample.search Sample.vectors) Sample.chunks
                  (lit "is the Garden Salad vegetarian?") 5
                  q_emb dist idx row rs Eenc Es Erow Er)).
Defined.

Lemma sample_stale_row :
  exists q_emb dist idx row,
    Sample.encode [clean Sample.nfkd (Some (lit "is the Garden Salad vegetarian?"))]
    = Returns q_emb
    /\ Sample.search Sample.vectors q_emb 5 = Returns (dist, idx)
    /\ py_index idx 0 = Returns row
    /\ In 2%Z row
    /\ (Z.of_nat (length (texts Sample.stale_chunks)) <= 2)%Z.
Proof.
  eexists _, _, _, _. split; [reflexivity |].
  split; [vm_compute; reflexivity |]. split; [reflexivity |].
  split; [now left | vm_compute; discriminate].
Qed.

Lemma retrieve_label_out_of_range_witness :
  Sample.retrieve Sample.stale_chunks (lit "is the Garden Salad vegetarian?") 5
  = Raises IndexError.
Proof.
  destruct sample_stale_row as (q_emb & dist & idx & row & Eenc & Es & Erow & Hin & Hout).
  exact (retrieve_label_out_of_range Sample.nfkd _ Sample.encode
           (Sample.search Sample.vectors) Sample.stale_chunks
           (lit "is the Garden Salad vegetarian?") 5
           q_emb dist idx row 2%Z Eenc Es Erow Hin (or_introl Hout)).
Defined.

Lemma sample_first_result :
  exists res rest,
    Sample.retrieve Sample.chunks (lit "is the Garden Salad vegetarian?") TOP_K
    = Returns (res :: rest).
Proof. eexists _, _. vm_compute. reflexivity. Qed.

Lemma retrieve_results_aligned_witness :
  forallb wf_entity Sample.restaurants = true
  /\ exists res r it,
       In (r, it) (leaves Sample.restaurants)
       /\ chunk_from Sample.nfkd Sample.py_repr r it (Result.text res)
       /\ meta_from r it (Result.meta res).
Proof.
  split; [reflexivity |].
  destruct sample_first_result as (res & rest & E).
  exists res.
  exact (retrieve_results_aligned Sample.nfkd Sample.py_repr _ Sample.encode
           (Sample.search Sample.vectors) Sample.restaurants
           (lit "is the Garden Salad vegetarian?") TOP_K (res :: rest) res
           eq_refl E (or_introl eq_refl)).
Defined.

(** ** More on flattening *)

Section FlattenMore.

Variable nfkd : str -> str.
Variable py_repr : pyval -> str.

Lemma txt_raw_key_absent rname rloc it :
  has_key key_description it = false \/ has_key key_special_features it = false ->
  exists e, txt_raw py_repr rname rloc it = Raises e.
Proof.
  intros H. unfold txt_raw. fold key_description. fold key_special_features.
  destruct (getitem it (lit "category")); simpl; [| eauto].
  destruct (getitem it (lit "item_name")); simpl; [| eauto].
  destruct H as [H | H]; apply lacks_key_getitem in H; destruct H as [e E].
  - rewrite E. simpl. eauto.
  - destruct (getitem it key_description); simpl; [| eauto].
    rewrite E. simpl. eauto.
Qed.

Lemma item_meta_key_absent rname it :
  has_key key_product_url it = false \/ has_key key_price it = false ->
  exists e, item_meta rname it = Raises e.
Proof.
  intros H. unfold item_meta. fold key_product_url. fold key_price.
  destruct (getitem it (lit "category")); simpl; [| eauto].
  destruct (getitem it (lit "item_name")); simpl; [| eauto].
  destruct H as [H | H]; apply lacks_key_getitem in H; destruct H as [e E].
  - rewrite E. simpl. eauto.
  - destruct (getitem it key_product_url); simpl; [| eauto].
    rewrite E. simpl. eauto.
Qed.

Lemma flatten_item_key_absent rname rloc it :
  has_key key_description it = false
  \/ has_key key_special_features it = false
  \/ has_key key_product_url it = false
  \/ has_key key_price it = false ->
  forall g, exists e g', flatten_item nfkd py_repr rname rloc it g = (Raises e, g').
Proof.
  intros H g. unfold flatten_item, bind, lift, modify.
  destruct (txt_raw py_repr rname rloc it) as [raw |] eqn:Eraw; [| eauto].
  destruct H as [H | [H | H]].
  - destruct (txt_raw_key_absent rname rloc it (or_introl H)); congruence.
  - destruct (txt_raw_key_absent rname rloc it (or_intror H)); congruence.
  - destruct (item_meta_key_absent rname it H) as [e ->]. eauto.
Qed.

(** X18. Every key the loop subscripts is needed, not only the four the
    specification calls required: an entity without its item list, or an
    item without description, feature list, URL or price, makes
    flattening raise instead of return. *)
Theorem flatten_other_key_absent (restaurants : list pyval) (r : pyval) :
  In r restaurants ->
  other_key_absent r ->
  exists e g, flatten nfkd py_repr restaurants = (Raises e, g).
Proof.
  intros Hin Habs. unfold flatten. apply (for_each_raises _ _ r Hin).
  intros g. unfold flatten_entity, bind, lift. fold key_items.
  destruct (getitem r (lit "restaurant_name")) as [rname |]; [| eauto].
  destruct (getitem r (lit "location")) as [rloc |]; [| eauto].
  destruct Habs as [H | (it & Hit & H)].
  - apply lacks_key_getitem in H. destruct H as [e ->]. eauto.
  - rewrite (items_of_getitem nfkd py_repr r it Hit). simpl py_iter. cbv iota.
    apply (for_each_raises _ _ it Hit). now apply flatten_item_key_absent.
Qed.

(** *** The two lists while the loop runs *)

Lemma for_each_invariant {S A} (I J : S -> Prop) (body : A -> Run S unit) l :
  (forall s, I s -> J s) ->
  (forall x s o s', I s -> body x s = (o, s') ->
                    match o with Returns _ => I s' | Raises _ => J s' end) ->
  forall s o s', I s -> for_each body l s = (o, s') ->
                 match o with Returns _ => I s' | Raises _ => J s' end.
Proof.
  intros HIJ Hbody. induction l as [| x l IH]; intros s o s' Hs; simpl.
  - unfold ret. now intros [= <- <-].
  - unfold bind. destruct (body x s) as [[[] | e] s1] eqn:E.
    + apply IH. exact (Hbody x s _ s1 Hs E).
    + intros [= <- <-]. exact (Hbody x s _ s1 Hs E).
Qed.

Lemma flatten_item_levels rname rloc it g o g' :
  level g ->
  flatten_item nfkd py_repr rname rloc it g = (o, g') ->
  match o with Returns _ => level g' | Raises _ => level g' \/ ahead g' end.
Proof.
  unfold level, ahead, flatten_item, bind, lift, modify. intros Hg.
  destruct (txt_raw py_repr rname rloc it) as [raw |].
  - destruct (item_meta rname it) as [m |]; intros [= <- <-]; simpl.
    + rewrite !length_app. simpl. lia.
    + right. rewrite length_app. simpl. lia.
  - intros [= <- <-]. now left.
Qed.

Lemma flatten_entity_levels r g o g' :
  level g ->
  flatten_entity nfkd py_repr r g = (o, g') ->
  match o with Returns _ => level g' | Raises _ => level g' \/ ahead g' end.
Proof.
  intros Hg. unfold flatten_entity, bind, lift.
  destruct (getitem r (lit "restaurant_name")) as [rname |];
    [| intros [= <- <-]; now left].
  destruct (getitem r (lit "location")) as [rloc |];
    [| intros [= <- <-]; now left].
  destruct (getitem r (lit "items")) as [items |];
    [| intros [= <- <-]; now left].
  destruct (py_iter items) as [its |]; [| intros [= <- <-]; now left].
  apply (for_each_invariant level (fun g => level g \/ ahead g)); trivial.
  - now left.
  - intros it s o1 s'. apply flatten_item_levels.
Qed.

(** X19. For any catalog, when the loop returns the chunk list and the
    metadata list have the same length; when it raises, the chunk list is
    as long as the metadata list or exactly one entry longer (the text of
    the failing item was appended before a metadata subscript failed). *)
Theorem flatten_lists_level (restaurants : list pyval) o g :
  flatten nfkd py_repr restaurants = (o, g) ->
  match o with
  | Returns _ => length (texts g) = length (meta g)
  | Raises _ => length (texts g) = length (meta g)
                \/ length (texts g) = S (length (meta g))
  end.
Proof.
  unfold flatten.
  apply (for_each_invariant level (fun g => level g \/ ahead g)).
  - now left.
  - intros r s o1 s'. apply flatten_entity_levels.
  - reflexivity.
Qed.

(** *** Catalogs put end to end *)

Lemma for_each_app {S A} (body : A -> Run S unit) l1 l2 s :
  for_each body (l1 ++ l2) s
  = match for_each body l1 s with
    | (Returns _, s1) => for_each body l2 s1
    | (Raises e, s1) => (Raises e, s1)
    end.
Proof.
  revert s. induction l1 as [| x l1 IH]; intros s; simpl; [reflexivity |].
  unfold bind. destruct (body x s) as [[[] | e] s']; [apply IH | reflexivity].
Qed.

Lemma for_each_shift {A} (body : A -> Run Chunks unit) p l :
  (forall x g, body x (shift p g) = (fst (body x g), shift p (snd (body x g)))) ->
  forall g, for_each body l (shift p g)
            = (fst (for_each body l g), shift p (snd (for_each body l g))).
Proof.
  intros Hbody. induction l as [| x l IH]; intros g; simpl; [reflexivity |].
  unfold bind. rewrite Hbody.
  destruct (body x g) as [[[] | e] g1]; simpl; [apply IH | reflexivity].
Qed.

Lemma flatten_item_shift p rname rloc it g :
  flatten_item nfkd py_repr rname rloc it (shift p g)
  = (fst (flatten_item nfkd py_repr rname rloc it g),
     shift p (snd (flatten_item nfkd py_repr rname rloc it g))).
Proof.
  unfold flatten_item, bind, lift, modify, shift, append_text, append_meta.
  destruct (txt_raw py_repr rname rloc it); [| reflexivity].
  destruct (item_meta rname it); simpl; now rewrite <- ?app_assoc.
Qed.

Lemma flatten_entity_shift p r g :
  flatten_entity nfkd py_repr r (shift p g)
  = (fst (flatten_entity nfkd py_repr r g),
     shift p (snd (flatten_entity nfkd py_repr r g))).
Proof.
  unfold flatten_entity, bind, lift.
  destruct (getitem r (lit "restaurant_name")); [| reflexivity].
  destruct (getitem r (lit "location")); [| reflexivity].
  destruct (getitem r (lit "items")) as [items |]; [| reflexivity].
  destruct (py_iter items); [| reflexivity].
  apply for_each_shift. intros it g0. apply flatten_item_shift.
Qed.

(** X20. Chunk positions are stable under growth of the catalog: when
    flattening a catalog returns, flattening it with further entities
    appended gives the same lists followed by the lists of the further
    entities, and the outcome of those; when it raises, the appended
    entities are never looked at. *)
Theorem flatten_app (c1 c2 : list pyval) :
  flatten nfkd py_repr (c1 ++ c2)
  = match flatten nfkd py_repr c1 with
    | (Returns _, g1) =>
        (fst (flatten nfkd py_repr c2), shift g1 (snd (flatten nfkd py_repr c2)))
    | (Raises e, g1) => (Raises e, g1)
    end.
Proof.
  unfold flatten. rewrite for_each_app.
  destruct (for_each _ c1 _) as [[[] | e] g1]; [| reflexivity].
  replace g1 with (shift g1 {| texts := []; meta := [] |}) at 1
    by (unfold shift; destruct g1; simpl; now rewrite !app_nil_r).
  apply for_each_shift. intros r g0. apply flatten_entity_shift.
Qed.

(** X21. [load_kb] passes a decoded array on and replaces a keyed map by
    its values in file order, so both forms of the knowledge base flatten
    alike and the keys play no role.  It rejects nothing itself: a file
    whose top level is null, a boolean or a number is passed on too, and
    it is the loop of Step 5 that then raises [TypeError], with no chunk
    made. *)
Theorem load_kb_forms (json_load : str -> outcome pyval) (path : str) :
  (forall d, json_load path = Returns (PDict d) ->
     exists restaurants,
       load_kb json_load path = Returns restaurants
       /\ flatten_loaded nfkd py_repr restaurants
          = flatten nfkd py_repr (map snd d))
  /\ (forall l, json_load path = Returns (PList l) ->
        load_kb json_load path = Returns (PList l)
        /\ flatten_loaded nfkd py_repr (PList l) = flatten nfkd py_repr l)
  /\ (forall data, json_load path = Returns data ->
        data = PNone \/ (exists b, data = PBool b) \/ (exists z, data = PInt z)
        \/ (exists q, data = PFloat q) ->
        load_kb json_load path = Returns data
        /\ flatten_loaded nfkd py_repr data
           = (Raises TypeError, {| texts := []; meta := [] |}))
  /\ (forall e, json_load path = Raises e -> load_kb json_load path = Raises e).
Proof.
  unfold load_kb. split; [| split; [| split]].
  - intros d E. rewrite E. simpl. eauto.
  - intros l E. rewrite E. split; reflexivity.
  - intros data E Hd. rewrite E.
    destruct Hd as [-> | [[b ->] | [[z ->] | [q ->]]]]; split; reflexivity.
  - intros e E. now rewrite E.
Qed.

End FlattenMore.

Lemma flatten_other_key_absent_witness :
  In Sample.snack_bar [Sample.green_fork; Sample.snack_bar]
  /\ other_key_absent Sample.snack_bar
  /\ exists e g,
       flatten Sample.nfkd Sample.py_repr [Sample.green_fork; Sample.snack_bar]
       = (Raises e, g).
Proof.
  assert (Hin : In Sample.snack_bar [Sample.green_fork; Sample.snack_bar])
    by (right; left; reflexivity).
  assert (Habs : other_key_absent Sample.snack_bar).
  { right. exists Sample.no_url_item. split; [left; reflexivity |].
    right. right. left. reflexivity. }
  split; [exact Hin |]. split; [exact Habs |].
  exact (flatten_other_key_absent Sample.nfkd Sample.py_repr _ _ Hin Habs).
Defined.

Lemma sample_no_url :
  exists g,
    flatten Sample.nfkd Sample.py_repr [Sample.green_fork; Sample.snack_bar]
    = (Raises (KeyError key_product_url), g)
    /\ length (texts g) = 3 /\ length (meta g) = 2.
Proof. eexists. split; [vm_compute; reflexivity |]. split; reflexivity. Qed.

Lemma flatten_lists_level_witness :
  exists g,
    flatten Sample.nfkd Sample.py_repr [Sample.green_fork; Sample.snack_bar]
    = (Raises (KeyError key_product_url), g)
    /\ (length (texts g) = length (meta g)
        \/ length (texts g) = S (length (meta g)))
    /\ length (texts g) = 3 /\ length (meta g) = 2.
Proof.
  destruct sample_no_url as (g & E & Ht & Hm).
  exists g. split; [exact E |]. split; [| split; assumption].
  exact (flatten_lists_level Sample.nfkd Sample.py_repr
           [Sample.green_fork; Sample.snack_bar] _ g E).
Defined.

Lemma load_kb_forms_witness :
  Sample.json_load KB_PATH = Returns Sample.keyed_kb
  /\ exists restaurants,
       load_kb Sample.json_load KB_PATH = Returns restaurants
       /\ flatten_loaded Sample.nfkd Sample.py_repr restaurants
          = flatten Sample.nfkd Sample.py_repr Sample.restaurants.
Proof.
  split; [reflexivity |].
  exact (proj1 (load_kb_forms Sample.nfkd Sample.py_repr Sample.json_load KB_PATH)
           [(lit "r1", Sample.green_fork); (lit "r2", Sample.tea_house)] eq_refl).
Defined.

(** ** Retrieval and letter case *)

Section RetrievalCase.

Variable nfkd : str -> str.
Hypothesis nfkd_ascii :
  forall s, Forall (fun c => is_ascii c = true) s -> nfkd s = s.
Variable Array : Type.
Variable encode : list str -> outcome Array.
Variable search : Array -> Z -> outcome (list (list Q) * list (list Z)).

(** X22. Retrieval sees the query only through its cleaned text: two
    ASCII queries that differ in letter case only get the same outcome,
    whatever the index and the embedding model are. *)
Theorem retrieve_case_insensitive g (q1 q2 : str) k :
  Forall (fun c => is_ascii c = true) q1 ->
  Forall (fun c => is_ascii c = true) q2 ->
  map lower q1 = map lower q2 ->
  retrieve nfkd Array encode search g q1 k
  = retrieve nfkd Array encode search g q2 k.
Proof.
  intros H1 H2 E. unfold retrieve.
  now rewrite (clean_ascii nfkd nfkd_ascii q1 H1),
    (clean_ascii nfkd nfkd_ascii q2 H2), E.
Qed.

End RetrievalCase.

Lemma retrieve_case_insensitive_witness :
  map lower (lit "Is the BIG Mac vegan?") = map lower (lit "is the Big mac Vegan?")
  /\ Sample.retrieve Sample.chunks (lit "Is the BIG Mac vegan?") TOP_K
     = Sample.retrieve Sample.chunks (lit "is the Big mac Vegan?") TOP_K.
Proof.
  split; [reflexivity |].
  assert (H1 : Forall (fun c => is_ascii c = true) (lit "Is the BIG Mac vegan?"))
    by (repeat constructor).
  assert (H2 : Forall (fun c => is_ascii c = true) (lit "is the Big mac Vegan?"))
    by (repeat constructor).
  exact (retrieve_case_insensitive Sample.nfkd sample_nfkd_ascii _ Sample.encode
           (Sample.search Sample.vectors) Sample.chunks _ _ TOP_K H1 H2 eq_refl).
Defined.

(** ** Retrieval over the rows of the index *)

Section RetrievalRows.

Variable nfkd : str -> str.
Variable Array : Type.
Variable encode : list str -> outcome Array.
Variable search : Array -> Z -> outcome (list (list Q) * list (list Z)).







End RetrievalRows.






